(** * OWON VDS6104 driver: value quantisation and waveform decoding

    A shallow embedding of [VDS6104/scale.py] (the step-sequence generator
    [calc_valid_inputs], the resolvers [get_closest_value] and
    [validate_input], and the helper [get_val_ceil]), of the sample loop of
    [OwonVDS6104.capture] and of the token assembly of the timebase setter
    ([validate_time] in [VDS6104/test.py]).

    Number model.  A Python [float] is modelled by an exact rational [Q]:
    arithmetic is exact, [==], [<] and [<=] are the rational comparisons,
    and [float("<m>e<k>")] is the rational [m * 10^k].  Python [int]s are
    [Z].  Python exceptions are values of [exn]; a loop that the model runs
    with fuel reports [Timeout] when the fuel is spent.  Where the outcome
    depends on the rounding of a float operation, the operation is taken
    from the module [Binary64], which rounds to the nearest double. *)

From Stdlib Require Import ZArith QArith Qabs Qround Qpower List Sorted String Ascii Bool Lia Lqa.
From Stdlib Require Decimal DecimalZ DecimalPos.
From Stdlib Require Import DecimalString.
From Stdlib Require Import Qminmax.
Import ListNotations.

Local Open Scope string_scope.
Local Open Scope list_scope.
Local Open Scope Z_scope.

(** ** Results of Python calls *)

Inductive exn : Type :=
| ValueError
| IndexError
| ZeroDivisionError.

Inductive result (A : Type) : Type :=
| Ok (a : A)
| Raise (e : exn)
| Timeout.

Arguments Ok {A} a.
Arguments Raise {A} e.
Arguments Timeout {A}.

Definition bind {A B : Type} (r : result A) (k : A -> result B) : result B :=
  match r with
  | Ok a => k a
  | Raise e => Raise e
  | Timeout => Timeout
  end.

Notation "x <- r ;; k" := (bind r (fun x => k))
  (at level 61, r at next level, right associativity).

Definition raises {A : Type} (r : result A) : Prop :=
  exists e, r = Raise e.

(** ** Comparisons on floats *)

Definition Qlt_bool (x y : Q) : bool := negb (Qle_bool y x).

(** [10^e] for a signed exponent. *)
Definition pow10 (e : Z) : Q :=
  if 0 <=? e then inject_Z (10 ^ e) else 1 # Z.to_pos (10 ^ (- e)).

(** ** Built-ins on strings *)

(** [str(n)] and ['{0}'.format(n)] for an [int]. *)
Definition py_str_int (n : Z) : string :=
  NilZero.string_of_int (Z.to_int n).

(** [int(s)] for a string: an optional sign followed by decimal digits;
    anything else is a [ValueError]. *)
Definition py_int (s : string) : result Z :=
  match s with
  | EmptyString => Raise ValueError
  | String a s' =>
      if Ascii.eqb a "+" then
        match NilZero.uint_of_string s' with
        | Some d => Ok (Z.of_uint d)
        | None => Raise ValueError
        end
      else
        match NilZero.int_of_string s with
        | Some d => Ok (Z.of_int d)
        | None => Raise ValueError
        end
  end.

(** [s[0]]: the first character as a one-character string. *)
Definition str_first (s : string) : result string :=
  match s with
  | EmptyString => Raise IndexError
  | String c _ => Ok (String c EmptyString)
  end.

(** [s.split(c)] for a one-character separator. *)
Fixpoint str_split (c : ascii) (s : string) : list string :=
  match s with
  | EmptyString => [EmptyString]
  | String a s' =>
      if Ascii.eqb a c then EmptyString :: str_split c s'
      else
        match str_split c s' with
        | [] => [String a EmptyString]
        | hd :: tl => String a hd :: tl
        end
  end.

(** [l[i]] on a list. *)
Definition list_get {A : Type} (l : list A) (i : nat) : result A :=
  match nth_error l i with
  | Some a => Ok a
  | None => Raise IndexError
  end.

(** [s.zfill(n)]-style left padding with ['0'], as printf pads exponents. *)
Fixpoint zero_pad (n : nat) (s : string) : string :=
  match n with
  | O => s
  | S k => String "0" (zero_pad k s)
  end.

Definition pad_to (width : nat) (s : string) : string :=
  zero_pad (width - String.length s) s.

(** ** ['{0:e}'.format(x)]

    Scientific notation with six digits after the point: the decimal
    exponent [e] with [10^e <= x < 10^(e+1)], the seven significant digits
    of [x] rounded half to even, a carry into the exponent when the digits
    round up to [10^7], and an exponent of at least two digits with its
    sign. *)

Fixpoint find_exp (fuel : nat) (e : Z) (x : Q) : Z :=
  match fuel with
  | O => e
  | S f => if Qle_bool (pow10 e) x then e else find_exp f (e - 1) x
  end.

Definition exponent10 (x : Q) : Z :=
  let hi := Z.log2 (Qnum x) in
  let lo := Z.log2 (Zpos (Qden x)) + 1 in
  find_exp (Z.to_nat (hi + lo)) hi x.

Definition round_half_even (x : Q) : Z :=
  let f := Qfloor x in
  let r := (x - inject_Z f)%Q in
  if Qlt_bool r (1 # 2) then f
  else if Qlt_bool (1 # 2) r then f + 1
  else if Z.even f then f else f + 1.

(** Seven significant digits and exponent of a positive [x]. *)
Definition sci_digits (x : Q) : Z * Z :=
  let e := exponent10 x in
  let m := round_half_even (x * pow10 (6 - e))%Q in
  if m =? 10 ^ 7 then (10 ^ 6, e + 1) else (m, e).

(** The leading significant digit and the exponent that ['{0:e}'] prints
    for a positive [x]. *)
Definition leading_digit (x : Q) : Z := fst (sci_digits x) / 10 ^ 6.

Definition sci_exponent (x : Q) : Z := snd (sci_digits x).

Definition format_exp (e : Z) : string :=
  let sign := if e <? 0 then "-" else "+" in
  let digits := pad_to 2 (py_str_int (Z.abs e)) in
  (sign ++ digits)%string.

Definition format_e_pos (x : Q) : string :=
  let '(m, e) := sci_digits x in
  let lead := py_str_int (m / 10 ^ 6) in
  let frac := pad_to 6 (py_str_int (m mod 10 ^ 6)) in
  (lead ++ "." ++ frac ++ "e" ++ format_exp e)%string.

Definition format_e (x : Q) : string :=
  if Qeq_bool x 0 then "0.000000e+00"
  else if Qlt_bool x 0 then String "-" (format_e_pos (- x)%Q)
  else format_e_pos x.

(** ** [float(s)]

    The loop of [calc_valid_inputs] only ever passes a literal
    ["<int>e<int>"]; that form is parsed, anything else is a [ValueError]. *)
Definition py_float (s : string) : result Q :=
  match str_split "e" s with
  | [m; e] =>
      m' <- py_int m ;;
      e' <- py_int e ;;
      Ok (inject_Z m' * pow10 e')%Q
  | _ => Raise ValueError
  end.

(** ** Built-ins on lists *)

(** [l.index(x)] on a list of ints. *)
Fixpoint list_index (l : list Z) (x : Z) : result nat :=
  match l with
  | [] => Raise ValueError
  | y :: l' => if y =? x then Ok O else i <- list_index l' x ;; Ok (S i)
  end.

(** [l.index(x)] on a list of floats. *)
Fixpoint list_index_Q (l : list Q) (x : Q) : result nat :=
  match l with
  | [] => Raise ValueError
  | y :: l' => if Qeq_bool y x then Ok O else i <- list_index_Q l' x ;; Ok (S i)
  end.

(** [min(l, key=key)]: the first element whose key is smallest; the running
    best is replaced only by a strictly smaller key. *)
Fixpoint min_from (key : Q -> Q) (best : Q) (l : list Q) : Q :=
  match l with
  | [] => best
  | x :: l' =>
      if Qlt_bool (key x) (key best) then min_from key x l'
      else min_from key best l'
  end.

Definition py_min_key (key : Q -> Q) (l : list Q) : result Q :=
  match l with
  | [] => Raise ValueError
  | x :: l' => Ok (min_from key x l')
  end.

(** [max(l)]: the first largest element. *)
Fixpoint max_from (best : Q) (l : list Q) : Q :=
  match l with
  | [] => best
  | x :: l' => if Qlt_bool best x then max_from x l' else max_from best l'
  end.

Definition py_max (l : list Q) : result Q :=
  match l with
  | [] => Raise ValueError
  | x :: l' => Ok (max_from x l')
  end.

(** [a % b] on non-negative ints. *)
Definition py_mod (a b : nat) : result nat :=
  match b with
  | O => Raise ZeroDivisionError
  | _ => Ok (a mod b)%nat
  end.

(** ** [scale.py] *)

(** The [while] loop of [calc_valid_inputs].  [values_valid.append(value)]
    followed by the rest of the loop is rendered as [value :: rest], so the
    list comes out in append order. *)
Fixpoint calc_loop (fuel : nat) (MANTISSA : list Z) (MAX_VAL : Q)
    (idx_mantissa : nat) (exponent : Z) (value : Q) : result (list Q) :=
  match fuel with
  | O => Timeout
  | S fuel' =>
      if Qle_bool value MAX_VAL then
        idx_mantissa <- py_mod (idx_mantissa + 1) (List.length MANTISSA) ;;
        let exponent := if (idx_mantissa =? 0)%nat then exponent + 1 else exponent in
        m <- list_get MANTISSA idx_mantissa ;;
        value' <- py_float (py_str_int m ++ "e" ++ py_str_int exponent)%string ;;
        rest <- calc_loop fuel' MANTISSA MAX_VAL idx_mantissa exponent value' ;;
        Ok (value :: rest)
      else Ok []
  end.

Definition calc_valid_inputs (fuel : nat) (MIN_VAL MAX_VAL : Q)
    (MANTISSA : list Z) : result (list Q) :=
  c <- str_first (format_e MIN_VAL) ;;
  d <- py_int c ;;
  idx_mantissa <- list_index MANTISSA d ;;
  e <- list_get (str_split "e" (format_e MIN_VAL)) 1 ;;
  exponent <- py_int e ;;
  calc_loop fuel MANTISSA MAX_VAL idx_mantissa exponent MIN_VAL.

(** The [for] loop of [get_closest_value].  [min_delta] is unbound until
    the first iteration assigns it; the model carries a value that is never
    read while [first_run] is still [false]. *)
Fixpoint closest_loop (input_value : Q) (possible_values : list Q)
    (first_run : bool) (min_delta lowest_value : Q) : Q :=
  match possible_values with
  | [] => lowest_value
  | value :: rest =>
      let delta := Qabs (value - input_value) in
      let min_delta := if negb first_run then delta else min_delta in
      let first_run := true in
      let lowest_value := if Qlt_bool delta min_delta then value else lowest_value in
      let min_delta := if Qlt_bool delta min_delta then delta else min_delta in
      if Qeq_bool delta 0 then value
      else closest_loop input_value rest first_run min_delta lowest_value
  end.

(** [resolve]: the body of [get_closest_value] after the sequence is built. *)
Definition resolve (input_value : Q) (possible_values : list Q) : Q :=
  closest_loop input_value possible_values false 0 0.

Definition get_closest_value (fuel : nat) (input_value MIN MAX : Q)
    (MANTISSA : list Z) : result Q :=
  possible_values <- calc_valid_inputs fuel MIN MAX MANTISSA ;;
  Ok (resolve input_value possible_values).

(** [validate_input] with the differences taken exactly;
    [Binary64.validate_input] takes them as rounded by the float
    subtraction. *)
Definition validate_input (target : Q) (vals_valid : list Q) : result Q :=
  py_min_key (fun x => Qabs (x - target)) vals_valid.

Definition check_index (target : Q) (dataset : list Q) : result nat :=
  list_index_Q dataset target.

(** [get_val_ceil] returns a float, or [None] when control falls off the
    end of the [elif] branch. *)
Definition get_val_ceil (target validated : Q) (vals_valid : list Q)
    : result (option Q) :=
  if Qle_bool target validated then Ok (Some validated)
  else if Qlt_bool validated target then
    m <- py_max vals_valid ;;
    if Qlt_bool m target then Ok (Some validated) else Ok None
  else
    i <- check_index validated vals_valid ;;
    v <- list_get vals_valid (i + 1) ;;
    Ok (Some v).

(** ** [owon_vds6104.py]: the sample loop of [capture] *)

(** [for index, value in enumerate(adc_wave)]: returns [(time, volt_wave)]. *)
Fixpoint capture_loop (adc_wave : list Z) (index : Z)
    (scale_time scale_voltage offset_divisons : Q) : list Q * list Q :=
  match adc_wave with
  | [] => ([], [])
  | value :: rest =>
      let '(time, volt_wave) :=
        capture_loop rest (index + 1) scale_time scale_voltage offset_divisons in
      ((scale_time * inject_Z index)%Q :: time,
       ((inject_Z value / 6400 - offset_divisons) * scale_voltage)%Q :: volt_wave)
  end.

(** [decode(raw, scale, offsetDivisions, samplePeriod)] of the spec is the
    loop started at index 0. *)
Definition decode (raw : list Z) (scale offsetDivisions samplePeriod : Q)
    : list Q * list Q :=
  capture_loop raw 0 samplePeriod scale offsetDivisions.

(** ** The timebase token ([timebase.setter], [validate_time]) *)

Record Quantity : Type := { real : Q; units : string }.

(** Keyword arguments of [Quantity.render]; [None] is "not given". *)
Record render_args : Type := { strip_zeros : option bool; prec : option nat }.

Definition render_padded : render_args :=
  {| strip_zeros := Some false; prec := Some 1%nat |}.

Definition render_default : render_args :=
  {| strip_zeros := None; prec := None |}.

Definition time_dec : list Q :=
  [1e-9; 2e-9; 5e-9;
   1e-6; 2e-6; 5e-6;
   1e-3; 2e-3; 5e-3;
   1; 2; 5]%Q.

(** [x in l] on floats. *)
Definition py_in (x : Q) (l : list Q) : bool :=
  existsb (fun y => Qeq_bool x y) l.

(** ["".join(l)]. *)
Definition str_join (l : list string) : string :=
  String.concat "" l.

Fixpoint str_mem (c : ascii) (s : string) : bool :=
  match s with
  | EmptyString => false
  | String a s' => Ascii.eqb a c || str_mem c s'
  end.

Section Renderer.

(** [Quantity.render] belongs to the quantiphy package, which the
    repository imports; it is taken as a parameter. *)
Variable render : Quantity -> render_args -> string.

(** The part of [validate_time] after the value is resolved:
    [Quantity("{} s".format(time))], the choice of rendering, and the
    removal of the space. *)
Definition render_token (v : Q) (unit : string) : string :=
  let time := {| real := v; units := unit |} in
  let s :=
    if py_in (real time) time_dec then render time render_padded
    else render time render_default in
  str_join (str_split " " s).

Definition validate_time (fuel : nat) (input_time : Q) : result string :=
  time <- get_closest_value fuel input_time 1e-9 100 [1; 2; 5] ;;
  Ok (render_token time "s").

End Renderer.

(** ** [support.py] *)

(** Python lists are objects: [invert_endian] reverses its argument in
    place and returns the same object.  Lists of ints live in a heap,
    addressed by references. *)
Definition addr : Type := nat.

Definition heap : Type := addr -> list Z.

Definition heap_set (h : heap) (a : addr) (l : list Z) : heap :=
  fun a' => if (a' =? a)%nat then l else h a'.

(** [data = list_slice; data.reverse(); return data]. *)
Definition invert_endian (list_slice : addr) (h : heap) : addr * heap :=
  let data := list_slice in
  (data, heap_set h data (rev (h data))).

(** [(l[0] << 24) | (l[1] << 16) | (l[2] << 8) | (l[3])]. *)
Definition u8_to_u32 (list_slice : addr) (h : heap) : result Z :=
  b0 <- list_get (h list_slice) 0 ;;
  b1 <- list_get (h list_slice) 1 ;;
  b2 <- list_get (h list_slice) 2 ;;
  b3 <- list_get (h list_slice) 3 ;;
  Ok (Z.lor (Z.lor (Z.lor (Z.shiftl b0 24) (Z.shiftl b1 16)) (Z.shiftl b2 8)) b3).

(** [convert_list_to_int]: the value is an int, or [None] when the length
    is neither 4 nor 2; the heap after the call is returned with it. *)
Definition convert_list_to_int (list_slice : addr) (h : heap)
    : result (option Z) * heap :=
  let '(list_slice, h) := invert_endian list_slice h in
  let l := h list_slice in
  if (List.length l =? 4)%nat then
    (b0 <- list_get l 0 ;;
     b1 <- list_get l 1 ;;
     b2 <- list_get l 2 ;;
     b3 <- list_get l 3 ;;
     Ok (Some (Z.lor (Z.lor (Z.lor (Z.shiftl b0 24) (Z.shiftl b1 16))
                        (Z.shiftl b2 8)) b3)),
     h)
  else if (List.length l =? 2)%nat then
    (b0 <- list_get l 0 ;;
     b1 <- list_get l 1 ;;
     Ok (Some (Z.lor (Z.shiftl b0 8) b1)),
     h)
  else (Ok None, h).

(** An unsigned 8-bit value. *)
Definition is_u8 (b : Z) : Prop := 0 <= b < 256.

(** ** [owon_vds6104.py]: the command layer *)

(** The enums of the driver.  [Coupling] declares [DC]/[dc], [AC]/[ac] and
    [GND]/[gnd] with equal values, so each pair is one member. *)
Inductive State : Type := State_enable | State_disable.

Inductive Coupling : Type := Coupling_DC | Coupling_AC | Coupling_GND.

Inductive Measurement : Type :=
| Measurement_vmax | Measurement_vmin | Measurement_vpp | Measurement_vtop
| Measurement_vbase | Measurement_vamp | Measurement_vavg | Measurement_vrms
| Measurement_crms | Measurement_overshoot | Measurement_preshoot
| Measurement_pos_duty | Measurement_neg_duty | Measurement_period
| Measurement_freq | Measurement_rise_time | Measurement_fall_time
| Measurement_pos_width | Measurement_neg_width | Measurement_area
| Measurement_cyc_area | Measurement_pos_puls | Measurement_neg_puls
| Measurement_ris_edg_cnt | Measurement_fal_edg_cnt.

Inductive Acquire : Type := Acquire_sample | Acquire_peak.

Inductive Trigger : Type :=
| Trigger_mode_edge | Trigger_mode_video | Trigger_mode_pulse | Trigger_mode_slope
| Trigger_source_ch1 | Trigger_source_ch2 | Trigger_source_ch3 | Trigger_source_ch4
| Trigger_couple_ac | Trigger_couple_dc | Trigger_couple_hf
| Trigger_slope_rise | Trigger_slope_fall.

(** [member.value] for [Measurement]. *)
Definition Measurement_value (m : Measurement) : string :=
  match m with
  | Measurement_vmax => "VMAX" | Measurement_vmin => "VMIN"
  | Measurement_vpp => "VPP" | Measurement_vtop => "VTOP"
  | Measurement_vbase => "VBASE" | Measurement_vamp => "VAMP"
  | Measurement_vavg => "VAVG" | Measurement_vrms => "VRMS"
  | Measurement_crms => "CRMS" | Measurement_overshoot => "OVER"
  | Measurement_preshoot => "PRES" | Measurement_pos_duty => "PDUT"
  | Measurement_neg_duty => "NDUT" | Measurement_period => "PER"
  | Measurement_freq => "FREQ" | Measurement_rise_time => "RTIM"
  | Measurement_fall_time => "FTIM" | Measurement_pos_width => "PWID"
  | Measurement_neg_width => "NWID" | Measurement_area => "AREA"
  | Measurement_cyc_area => "CAR" | Measurement_pos_puls => "PPUL"
  | Measurement_neg_puls => "NPUL" | Measurement_ris_edg_cnt => "REDG"
  | Measurement_fal_edg_cnt => "FEDG"
  end.

(** The Python values a caller can pass where the driver does not fix a
    type. *)
Inductive pyval : Type :=
| VInt (n : Z)
| VFloat (q : Q)
| VBool (b : bool)
| VStr (s : string)
| VNone
| VState (x : State)
| VCoupling (x : Coupling)
| VMeasurement (x : Measurement)
| VAcquire (x : Acquire)
| VTrigger (x : Trigger).

Definition py_num (v : pyval) : option Q :=
  match v with
  | VInt n => Some (inject_Z n)
  | VFloat q => Some q
  | VBool b => Some (if b then 1 else 0)%Q
  | _ => None
  end.

Definition State_eqb (a b : State) : bool :=
  match a, b with
  | State_enable, State_enable | State_disable, State_disable => true
  | _, _ => false
  end.

Definition Coupling_eqb (a b : Coupling) : bool :=
  match a, b with
  | Coupling_DC, Coupling_DC | Coupling_AC, Coupling_AC
  | Coupling_GND, Coupling_GND => true
  | _, _ => false
  end.

Definition Acquire_eqb (a b : Acquire) : bool :=
  match a, b with
  | Acquire_sample, Acquire_sample | Acquire_peak, Acquire_peak => true
  | _, _ => false
  end.

Definition Trigger_index (t : Trigger) : nat :=
  match t with
  | Trigger_mode_edge => 0 | Trigger_mode_video => 1 | Trigger_mode_pulse => 2
  | Trigger_mode_slope => 3 | Trigger_source_ch1 => 4 | Trigger_source_ch2 => 5
  | Trigger_source_ch3 => 6 | Trigger_source_ch4 => 7 | Trigger_couple_ac => 8
  | Trigger_couple_dc => 9 | Trigger_couple_hf => 10 | Trigger_slope_rise => 11
  | Trigger_slope_fall => 12
  end%nat.

(** [a == b]: numbers compare by value, strings by content, enum members
    by identity; values of different kinds are unequal. *)
Definition py_eq (a b : pyval) : bool :=
  match a, b with
  | VStr s, VStr t => String.eqb s t
  | VNone, VNone => true
  | VState x, VState y => State_eqb x y
  | VCoupling x, VCoupling y => Coupling_eqb x y
  | VMeasurement x, VMeasurement y =>
      String.eqb (Measurement_value x) (Measurement_value y)
  | VAcquire x, VAcquire y => Acquire_eqb x y
  | VTrigger x, VTrigger y => (Trigger_index x =? Trigger_index y)%nat
  | _, _ =>
      match py_num a, py_num b with
      | Some x, Some y => Qeq_bool x y
      | _, _ => false
      end
  end.

(** [x in l] on Python values. *)
Definition pyval_in (x : pyval) (l : list pyval) : bool :=
  existsb (fun y => py_eq x y) l.

(** [str.lower()] on a string of code points below 256. *)
Definition ascii_lower (c : ascii) : ascii :=
  let n := nat_of_ascii c in
  if ((65 <=? n) && (n <=? 90) ||
      (192 <=? n) && (n <=? 222) && negb (n =? 215))%nat
  then ascii_of_nat (n + 32) else c.

Fixpoint py_lower (s : string) : string :=
  match s with
  | EmptyString => EmptyString
  | String c s' => String (ascii_lower c) (py_lower s')
  end.

(** [str.strip()]: whitespace code points below 256. *)
Definition is_space (c : ascii) : bool :=
  let n := nat_of_ascii c in
  ((9 <=? n) && (n <=? 13) || (28 <=? n) && (n <=? 32) ||
   (n =? 133) || (n =? 160))%nat.

Fixpoint lstrip (s : string) : string :=
  match s with
  | EmptyString => EmptyString
  | String c s' => if is_space c then lstrip s' else s
  end.

Fixpoint rstrip (s : string) : string :=
  match s with
  | EmptyString => EmptyString
  | String c s' =>
      match rstrip s' with
      | EmptyString => if is_space c then EmptyString else String c EmptyString
      | t => String c t
      end
  end.

Definition py_strip (s : string) : string := rstrip (lstrip s).

(** What the driver does to the instrument, in order. *)
Inductive event : Type :=
| Write (cmd : string)
| Query (cmd : string)
| QueryBinary (cmd : string).

(** Exceptions of the driver: its own [raise] statements, a failed dict or
    list access, and an exception that comes up from [scale.py]. *)
Inductive pyexn : Type :=
| PyException (msg : string)
| PyValueError (msg : string)
| PyKeyError (key : string)
| PyIndexError
| PyZeroDivisionError
| PyUnboundLocalError
| PyFromScale (e : exn).

(** [Diverged]: a call into [scale.py] used up its fuel. *)
Inductive outcome (A : Type) : Type :=
| Done (a : A)
| Raised (e : pyexn)
| Diverged.

Arguments Done {A} a.
Arguments Raised {A} e.
Arguments Diverged {A}.

(** A method: from the events so far to its outcome and the events after. *)
Definition io (A : Type) : Type := list event -> outcome A * list event.

Definition io_ret {A : Type} (a : A) : io A := fun log => (Done a, log).

Definition io_raise {A : Type} (e : pyexn) : io A := fun log => (Raised e, log).

Definition io_bind {A B : Type} (m : io A) (k : A -> io B) : io B :=
  fun log =>
    match m log with
    | (Done a, log') => k a log'
    | (Raised e, log') => (Raised e, log')
    | (Diverged, log') => (Diverged, log')
    end.

Notation "x <~ m ;; k" := (io_bind m (fun x => k))
  (at level 61, m at next level, right associativity).

(** A call into [scale.py]. *)
Definition io_scale {A : Type} (r : result A) : io A :=
  fun log =>
    match r with
    | Ok a => (Done a, log)
    | Raise e => (Raised (PyFromScale e), log)
    | Timeout => (Diverged, log)
    end.

(** [l[i]] on a list of strings. *)
Definition io_index (l : list string) (i : nat) : io string :=
  match nth_error l i with
  | Some x => io_ret x
  | None => io_raise PyIndexError
  end.

(** [s.replace(c, '')] for a one-character [c]. *)
Fixpoint str_remove (c : ascii) (s : string) : string :=
  match s with
  | EmptyString => EmptyString
  | String a s' => if Ascii.eqb a c then str_remove c s' else String a (str_remove c s')
  end.

(** [self.instrument.write(s)]. *)
Definition instrument_write (s : string) : io unit :=
  fun log => (Done tt, log ++ [Write s]).

(** [self.send(command)]. *)
Definition send (command : string) : io unit := instrument_write command.

Definition channel_list : list Z := [1; 2; 3; 4].

Definition min_measurement_time : Q := 0.02.

(** [channel in self.channel_list] for an int. *)
Definition channel_ok (channel : Z) : bool :=
  existsb (fun c => channel =? c) channel_list.

(** [d[key]] and [key in d.keys()] on a dict with string keys. *)
Fixpoint dict_find {V : Type} (d : list (string * V)) (key : string) : option V :=
  match d with
  | [] => None
  | (k, v) :: d' => if String.eqb key k then Some v else dict_find d' key
  end.

Definition dict_get {V : Type} (d : list (string * V)) (key : string) : io V :=
  match dict_find d key with
  | Some v => io_ret v
  | None => io_raise (PyKeyError key)
  end.

Section Instrument.

(** The instrument behind pyVISA: its raw reply to a query, given the
    events before it.  ['{}'.format(x)] for a float [x] is Python's float
    formatting.  Both are taken as parameters. *)
Variable instrument_query : list event -> string -> string.
Variable float_str : Q -> string.

(** [self.query(command)]: the reply with surrounding whitespace stripped. *)
Definition query (command : string) : io string :=
  fun log => (Done (py_strip (instrument_query log command)), log ++ [Query command]).

Definition set_coupling (channel : Z) (mode : pyval) : io unit :=
  let mode := match mode with VStr s => VStr (py_lower s) | _ => mode end in
  if negb (channel_ok channel) then
    io_raise (PyException "Set Coupling Errror: invalid channel")
  else if pyval_in mode [VStr "ac"; VCoupling Coupling_AC; VCoupling Coupling_AC] then
    instrument_write (":CH" ++ py_str_int channel ++ ":COUP AC")%string
  else if pyval_in mode [VStr "dc"; VCoupling Coupling_DC; VCoupling Coupling_DC] then
    instrument_write (":CH" ++ py_str_int channel ++ ":COUP DC")%string
  else if pyval_in mode [VStr "gnd"; VCoupling Coupling_DC; VCoupling Coupling_DC] then
    instrument_write (":CH" ++ py_str_int channel ++ ":COUP GND")%string
  else io_ret tt.

Definition get_coupling (channel : Z) : io string :=
  if negb (channel_ok channel) then
    io_raise (PyException "Get Coupling Errror: invalid channel")
  else query (":CH" ++ py_str_int channel ++ ":COUP?")%string.

Definition set_channel_state (channel : Z) (mode : pyval) : io unit :=
  if channel_ok channel then
    if py_eq mode (VState State_enable) then
      send (":CH" ++ py_str_int channel ++ ":DISP ON")%string
    else if py_eq mode (VState State_disable) then
      send (":CH" ++ py_str_int channel ++ ":DISP OFF")%string
    else io_raise (PyException "Invalid state!")
  else io_raise (PyException "Invalid channel!").

Definition get_channel_state (channel : Z) : io bool :=
  resp <~ query (":CH" ++ py_str_int channel ++ ":DISP?")%string ;;
  io_ret (String.eqb resp "ON").

Definition available_depths : list string :=
  ["1K"; "10K"; "100K"; "1M"; "10M"; "25M"; "50M"; "100M"; "250M"].

Definition memory_depth_setter (depth : string) : io unit :=
  if existsb (String.eqb depth) available_depths then
    send (":ACQ:DEPMEM " ++ depth)%string
  else
    io_raise (PyException
      ("Invalid memory depth selected. " ++
       "Supported depths: 1K, 10K, 100K, 1M, 10M, 25M " ++
       "50M, 100M, 250M")%string).

Definition available_precisions : list Z := [8; 12; 14].

Definition precision_setter (num_bits : Z) : io unit :=
  if existsb (fun b => num_bits =? b) available_precisions then
    send (":ACQ:PREC " ++ py_str_int num_bits)%string
  else
    io_raise (PyException
      ("Invalid precision selected. " ++ "Supported values: 8, 12, 14")%string).

Definition trig_mode_getter : io Trigger :=
  let resp_map := [("EDGE", Trigger_mode_edge); ("VIDeo", Trigger_mode_video);
                   ("PULSe", Trigger_mode_pulse); ("SLOPe", Trigger_mode_slope)] in
  resp <~ query ":TRIG:SING:MODE?" ;;
  dict_get resp_map resp.

Definition trig_mode_setter (mode : pyval) : io unit :=
  if py_eq mode (VTrigger Trigger_mode_edge) then send ":TRIG:SING:MODE EDGE"
  else if py_eq mode (VTrigger Trigger_mode_video) then send ":TRIG:SING:MODE VID"
  else if py_eq mode (VTrigger Trigger_mode_pulse) then send ":TRIG:SING:MODE PULS"
  else if py_eq mode (VTrigger Trigger_mode_slope) then send ":TRIG:SING:MODE SLOP"
  else io_raise (PyException "Invalid trigger mode!").

Definition trig_holdoff_setter (hold_time : Q) : io unit :=
  if Qle_bool 100e-9 hold_time && Qle_bool hold_time 10 then
    send (":TRIG:SING:HOLD " ++ float_str hold_time)%string
  else io_raise (PyValueError "Invalid trigger holdoff time!").

Definition trig_source_getter : io Z :=
  resp <~ query ":TRIG:SING:EDGE:SOUR?" ;;
  let ch_map := [("CH1", 1); ("CH2", 2); ("CH3", 3); ("CH4", 4)] in
  match dict_find ch_map resp with
  | Some _ => dict_get ch_map resp
  | None => io_raise (PyException "Instrument error: invalid input received!")
  end.

Definition trig_source_setter (source : pyval) : io unit :=
  if pyval_in source [VInt 1; VTrigger Trigger_source_ch1] then
    send ":TRIG:SING:EDGE:SOUR CH1"
  else if pyval_in source [VInt 2; VTrigger Trigger_source_ch2] then
    send ":TRIG:SING:EDGE:SOUR CH2"
  else if pyval_in source [VInt 3; VTrigger Trigger_source_ch3] then
    send ":TRIG:SING:EDGE:SOUR CH3"
  else if pyval_in source [VInt 4; VTrigger Trigger_source_ch4] then
    send ":TRIG:SING:EDGE:SOUR CH4"
  else io_raise (PyValueError "Invalid trigger source!").

Definition trig_coupling_setter (mode : pyval) : io unit :=
  if pyval_in mode [VStr "ac"; VStr "AC"; VTrigger Trigger_couple_ac] then
    send ":TRIG:SING:EDGE:COUP AC"
  else if pyval_in mode [VStr "dc"; VStr "DC"; VTrigger Trigger_couple_dc] then
    send ":TRIG:SING:EDGE:COUP DC"
  else if pyval_in mode [VStr "hf"; VStr "HF"; VTrigger Trigger_couple_hf] then
    send ":TRIG:SING:EDGE:COUP HF"
  else io_raise (PyValueError "Invalid trigger coupling!").

Definition measurement_source_setter (channel : Z) : io unit :=
  if channel_ok channel then
    send (":MEAS:SOUR CH" ++ py_str_int channel)%string
  else io_raise (PyException "Invalid channel selected for measurement!").

Definition state_measurement_setter (mode : pyval) : io unit :=
  if py_eq mode (VState State_enable) then send ":MEAS:DISP ON"
  else if py_eq mode (VState State_disable) then send ":MEAS:DISP OFF"
  else io_raise (PyException "Invalid mode for measurement").

Definition time_measurement_setter (time_interval : Q) : io unit :=
  if Qle_bool min_measurement_time time_interval then
    send (":MEAS:TIM " ++ float_str time_interval)%string
  else io_raise (PyException "Invalid time interval set!").

(** The keys of [function_map] in [measure]; [Measurement.vavg] is not
    among them. *)
Definition function_map : list (Measurement * string) :=
  [(Measurement_vmax, "VMAX"); (Measurement_vmin, "VMIN");
   (Measurement_vpp, "VPP"); (Measurement_vtop, "VTOP");
   (Measurement_vbase, "VBASE"); (Measurement_vamp, "VAMP");
   (Measurement_vrms, "VRMS"); (Measurement_crms, "CRMS");
   (Measurement_overshoot, "OVER"); (Measurement_preshoot, "PRES");
   (Measurement_pos_duty, "PDUT"); (Measurement_neg_duty, "NDUT");
   (Measurement_period, "PER"); (Measurement_freq, "FREQ");
   (Measurement_rise_time, "RTIM"); (Measurement_fall_time, "FTIM");
   (Measurement_pos_width, "PWID"); (Measurement_neg_width, "NWID");
   (Measurement_area, "AREA"); (Measurement_cyc_area, "CAR");
   (Measurement_pos_puls, "PPUL"); (Measurement_neg_puls, "NPUL");
   (Measurement_ris_edg_cnt, "REDG"); (Measurement_fal_edg_cnt, "FEDG")].

(** [function_map[function]] when [function in function_map.keys()]. *)
Fixpoint function_map_find (d : list (Measurement * string)) (function : pyval)
    : option string :=
  match d with
  | [] => None
  | (k, v) :: d' =>
      if py_eq function (VMeasurement k) then Some v
      else function_map_find d' function
  end.

Definition measure (channel : Z) (function : pyval) : io string :=
  _ <~ measurement_source_setter channel ;;
  _ <~ state_measurement_setter (VState State_enable) ;;
  match function_map_find function_map function with
  | Some token => query (":MEAS:" ++ token ++ "?")%string
  | None => io_raise (PyException "Invalid measurement selected!")
  end.

Definition set_vertical_offset (channel offset : Z) : io unit :=
  if channel_ok channel then
    send (":CH" ++ py_str_int channel ++ ":OFFS " ++ py_str_int offset)%string
  else io_raise (PyException "Invalid channel!").

(** [set_bw_limit] has no [else] for a channel outside the list: the call
    returns [None]. *)
Definition set_bw_limit (channel : Z) (mode : pyval) : io unit :=
  if channel_ok channel then
    if py_eq mode (VState State_enable) then
      send (":CH" ++ py_str_int channel ++ ":BAND 20M")%string
    else if py_eq mode (VState State_disable) then
      send (":CH" ++ py_str_int channel ++ ":BAND OFF")%string
    else io_raise (PyException "Invalid mode!")
  else io_ret tt.

Definition get_bw_limit (channel : Z) : io bool :=
  if channel_ok channel then
    resp <~ query (":CH" ++ py_str_int channel ++ ":BAND?")%string ;;
    io_ret (String.eqb resp "20M")
  else io_raise (PyException "Invalid channel!").

Definition acquire_mode_setter (mode : pyval) : io unit :=
  if py_eq mode (VAcquire Acquire_peak) then send ":ACQ:MODE PEAK"
  else if py_eq mode (VAcquire Acquire_sample) then send ":ACQ:MODE SAMP"
  else io_ret tt.

(** [self.ident()]. *)
Definition ident : io string := query "*IDN?".

Definition check_model : io string :=
  identity <~ ident ;;
  let identity := py_strip identity in
  let identity := str_split " " identity in
  i0 <~ io_index identity 0 ;;
  if String.eqb i0 "OWON" then
    i1 <~ io_index identity 1 ;;
    if String.eqb i1 "VDS6104" then
      mfg <~ io_index identity 0 ;;
      model <~ io_index identity 1 ;;
      serial <~ io_index identity 2 ;;
      version <~ io_index identity 3 ;;
      io_ret ("Manufacturer:" ++ mfg ++ " Model:" ++ model ++ " S/N:" ++ serial
              ++ " Version:" ++ version)%string
    else
      io_raise (PyException
        ("Device is not supported. " ++
         "Check the device model, address, or try again.")%string)
  else
    io_raise (PyException
      ("Device is not supported. " ++
       "Check the device model, address, or try again.")%string).

(** [str(q)] for a [Quantity] and [Quantity.render] belong to quantiphy
    and are parameters. *)
Variable quantity_str : Quantity -> string.
Variable quantity_render : Quantity -> render_args -> string.

Definition mantissa : list Z := [1; 2; 5].
Definition timebase_min : Q := 1e-9.
Definition timebase_max : Q := 100.
Definition scale_min : Q := 2e-3.
Definition scale_max : Q := 5.

Definition set_scale (fuel : nat) (channel : Z) (voltage : Q) : io unit :=
  if negb (channel_ok channel) then
    io_raise (PyException "Invalid channel selected")
  else
    voltage <~ io_scale (get_closest_value fuel voltage scale_min scale_max mantissa) ;;
    let voltage := {| real := voltage; units := "v" |} in
    let voltage := str_remove " " (quantity_str voltage) in
    instrument_write (":CH" ++ py_str_int channel ++ ":SCAL " ++ voltage)%string.

(** The [timebase] setter: the token of [validate_time], then the write. *)
Definition timebase_setter (fuel : nat) (time_base : Q) : io unit :=
  time_base <~ io_scale (get_closest_value fuel time_base 1e-9 100 [1; 2; 5]) ;;
  let time_base := render_token quantity_render time_base "s" in
  instrument_write (":HORI:SCAL " ++ time_base)%string.

(** [scale_init]: the list kept in [self._timebase]. *)
Definition scale_init (fuel : nat) : result (list Q) :=
  calc_valid_inputs fuel timebase_min timebase_max mantissa.

(** [Quantity(s).real] and [float(s)] on a reply, and the block that
    [query_binary_values] reads, are parameters as well. *)
Variable quantity_real : string -> outcome Q.
Variable float_of_reply : string -> outcome Q.
Variable instrument_query_binary : list event -> string -> list Z.

Definition io_outcome {A : Type} (o : outcome A) : io A := fun log => (o, log).

(** The [timebase] property. *)
Definition timebase_getter : io Q :=
  resp <~ query ":HORI:SCAL?" ;;
  io_outcome (quantity_real resp).

(** [get_scale] reads the reply unstripped. *)
Definition get_scale (channel : Z) : io Q :=
  if negb (channel_ok channel) then
    io_raise (PyException "Invalid channel selected")
  else
    fun log =>
      let cmd := (":CH" ++ py_str_int channel ++ ":SCAL?")%string in
      (quantity_real (instrument_query log cmd), log ++ [Query cmd]).

Definition get_vertical_offset (channel : Z) : io Q :=
  if channel_ok channel then
    resp <~ query (":CH" ++ py_str_int channel ++ ":OFFS?")%string ;;
    io_outcome (float_of_reply resp)
  else io_raise (PyException "Invalid channel selected!").

Definition query_binary_values (command : string) : io (list Z) :=
  fun log => (Done (instrument_query_binary log command), log ++ [QueryBinary command]).

(** [capture]: when the channel is not in the list, [adc_wave] is never
    bound and the [for] statement would raise [UnboundLocalError]. *)
Definition capture (channel : Z) : io (list Q * list Q) :=
  scale_time <~ timebase_getter ;;
  scale_voltage <~ get_scale channel ;;
  offset_divisons <~ get_vertical_offset channel ;;
  if channel_ok channel then
    _ <~ send (":WAV:BEG CH" ++ py_str_int channel)%string ;;
    _ <~ send "WAV:RANG 0,1000" ;;
    adc_wave <~ query_binary_values ":WAV:FETC?" ;;
    _ <~ send ":WAV:END" ;;
    io_ret (capture_loop adc_wave 0 scale_time scale_voltage offset_divisons)
  else io_raise PyUnboundLocalError.

End Instrument.

(** A setter call that raises without writing, or returns having written
    nothing or exactly one command. *)
Definition atomic_setter (call : io unit) : Prop :=
  forall log,
    (exists e, call log = (Raised e, log)) \/
    call log = (Done tt, log) \/
    (exists c, call log = (Done tt, log ++ [Write c])).

(** ** [SCPI_example.py] *)

Definition maxSampleRates : list (string * list (string * Q)) :=
  [("single", [("8", 1e9); ("12", 500e6); ("14", 125e6)]);
   ("dual", [("8", 1e9); ("12", 500e6); ("14", 125e6)]);
   ("quad", [("8", 1e9); ("12", 500e6); ("14", 125e6)])]%Q.

Definition samplingPointsPerDiv : list (string * Q) :=
  [("1k", 50); ("10k", 500); ("100k", 5e3); ("1M", 50e3); ("10M", 500e3);
   ("25M", 1.25e6); ("50M", 2.5e6); ("100M", 5e6); ("250M", 12.5e6)]%Q.

(** [d[key]], with [KeyError] for a missing key. *)
Definition dict_item {V : Type} (d : list (string * V)) (key : string) : outcome V :=
  match dict_find d key with
  | Some v => Done v
  | None => Raised (PyKeyError key)
  end.

Definition getSampleRate (outputs bits samplingPoints : string) (timeBase : Q)
    : outcome Q :=
  match dict_item maxSampleRates outputs with
  | Done rates =>
      match dict_item rates bits with
      | Done maxRate =>
          match dict_item samplingPointsPerDiv samplingPoints with
          | Done samplePts =>
              if Qeq_bool timeBase 0 then Raised PyZeroDivisionError
              else if Qlt_bool (samplePts / timeBase) maxRate
                   then Done (samplePts / timeBase)%Q
                   else Done maxRate
          | Raised e => Raised e
          | Diverged => Diverged
          end
      | Raised e => Raised e
      | Diverged => Diverged
      end
  | Raised e => Raised e
  | Diverged => Diverged
  end.

(** ** Double precision

    Where a claim turns on which of two nearly equal differences is the
    smaller, the subtraction is taken as Python performs it on floats:
    the exact difference rounded to the nearest double, ties to even.
    A double has a significand of 53 bits; below [2^-1022] the spacing
    stays [2^-1074] (subnormal numbers).  Overflow to infinity lies
    outside the number model. *)

Definition pow2 (e : Z) : Q :=
  if 0 <=? e then inject_Z (2 ^ e) else 1 # Z.to_pos (2 ^ (- e)).

(** The binary exponent [e] of a positive [x]: [2^e <= x < 2^(e+1)]. *)
Definition exponent2 (x : Q) : Z :=
  let e := Z.log2 (Qnum x) - Z.log2 (Zpos (Qden x)) in
  if Qle_bool (pow2 e) x then e else e - 1.

Module Binary64.

(** The double nearest to [x]. *)
Definition round (x : Q) : Q :=
  let a := Qabs x in
  if Qeq_bool a 0 then 0%Q
  else
    let e := Z.max (exponent2 a) (- 1022) in
    let r := (inject_Z (round_half_even (a * pow2 (52 - e))) * pow2 (e - 52))%Q in
    if Qlt_bool x 0 then (- r)%Q else r.

(** [x - y] on floats. *)
Definition sub (x y : Q) : Q := round (x - y).

(** [min(vals_valid, key = lambda x: abs(x - target))] on floats: the key
    is the rounded difference. *)
Definition validate_input (target : Q) (vals_valid : list Q) : result Q :=
  py_min_key (fun x => Qabs (sub x target)) vals_valid.

End Binary64.

(** ** Vocabulary of the claims *)

(** The state the loop of [calc_valid_inputs] moves to: the next mantissa
    index, the exponent after a possible wrap, and the value they denote. *)
Definition next_idx (MANTISSA : list Z) (idx : nat) : nat :=
  ((idx + 1) mod List.length MANTISSA)%nat.

Definition next_exp (MANTISSA : list Z) (idx : nat) (e : Z) : Z :=
  if (next_idx MANTISSA idx =? 0)%nat then e + 1 else e.

Definition step_value (MANTISSA : list Z) (idx : nat) (e : Z) : Q :=
  (inject_Z (nth idx MANTISSA 0%Z) * pow10 e)%Q.

(** The state reached after [n] turns of the loop of [calc_valid_inputs]. *)
Fixpoint iter_state (MANTISSA : list Z) (n : nat) (idx : nat) (e : Z) : nat * Z :=
  match n with
  | O => (idx, e)
  | S n' => iter_state MANTISSA n' (next_idx MANTISSA idx) (next_exp MANTISSA idx e)
  end.

(** Mantissas in strictly ascending order, all positive. *)
Definition ascending_mantissas (MANTISSA : list Z) : Prop :=
  Sorted Z.lt MANTISSA /\ 0 < hd 0 MANTISSA.

(** Mantissas that moreover stay within one decade, so that a wrap to the
    next exponent moves upwards. *)
Definition decade_mantissas (MANTISSA : list Z) : Prop :=
  ascending_mantissas MANTISSA /\ MANTISSA <> [] /\
  last MANTISSA 0 < 10 * hd 0 MANTISSA.

(** A value that is the float of a literal ["<mantissa>e<exponent>"] with
    the mantissa taken from the list. *)
Definition mantissa_literal (MANTISSA : list Z) (w : Q) : Prop :=
  exists m k,
    In m MANTISSA /\
    py_float (py_str_int m ++ "e" ++ py_str_int k)%string = Ok w /\
    w = (inject_Z m * pow10 k)%Q.

(** [d] is the leading significant digit of the positive [x] itself:
    [d * 10^k <= x < (d + 1) * 10^k] for a digit [d] of 1..9.  The digit
    that ['{0:e}'] prints, [leading_digit], is the leading digit of [x]
    rounded to seven significant digits, and differs from this one when
    the rounding carries into the first digit. *)
Definition significant_digit (x : Q) (d : Z) : Prop :=
  1 <= d <= 9 /\
  exists k, (inject_Z d * pow10 k <= x)%Q /\ (x < inject_Z (d + 1) * pow10 k)%Q.

(** A renderer for one second, used to exercise [render_token]. *)
Definition sample_render (q : Quantity) (a : render_args) : string :=
  match prec a with
  | Some 1%nat => ("1.0 " ++ units q)%string
  | _ => ("1 " ++ units q)%string
  end.

(** * Properties *)

(** ** Comparisons *)

Lemma Qlt_bool_iff (x y : Q) : Qlt_bool x y = true <-> (x < y)%Q.
Proof.
  unfold Qlt_bool. rewrite negb_true_iff.
  split; intro H.
  - apply Qnot_le_lt. intro Hle. apply Qle_bool_iff in Hle. congruence.
  - destruct (Qle_bool y x) eqn:E; [|reflexivity].
    apply Qle_bool_iff in E. exfalso. exact (Qlt_not_le _ _ H E).
Qed.

Lemma Qlt_bool_false_iff (x y : Q) : Qlt_bool x y = false <-> (y <= x)%Q.
Proof.
  unfold Qlt_bool. rewrite negb_false_iff. apply Qle_bool_iff.
Qed.

Lemma Qle_bool_false_iff (x y : Q) : Qle_bool x y = false <-> (y < x)%Q.
Proof.
  rewrite <- Qlt_bool_iff. unfold Qlt_bool.
  destruct (Qle_bool x y); simpl; intuition congruence.
Qed.

Lemma Qeq_bool_false_iff (x y : Q) : Qeq_bool x y = false <-> ~ (x == y)%Q.
Proof.
  rewrite <- Qeq_bool_iff. destruct (Qeq_bool x y); intuition congruence.
Qed.

Lemma Qlt_bool_irrefl (x : Q) : Qlt_bool x x = false.
Proof. apply Qlt_bool_false_iff, Qle_refl. Qed.

(** ** [min] with a key: the first minimiser *)

Lemma min_from_split (key : Q -> Q) :
  forall l pre best mid,
    (forall y, In y pre -> (key best < key y)%Q) ->
    (forall y, In y mid -> (key best <= key y)%Q) ->
    exists l1 l2,
      pre ++ best :: mid ++ l = l1 ++ min_from key best l :: l2 /\
      (forall y, In y l1 -> (key (min_from key best l) < key y)%Q) /\
      (forall y, In y l2 -> (key (min_from key best l) <= key y)%Q).
Proof.
  induction l as [|x l IH]; intros pre best mid Hpre Hmid; simpl.
  - exists pre, mid. rewrite app_nil_r. auto.
  - destruct (Qlt_bool (key x) (key best)) eqn:E.
    + apply Qlt_bool_iff in E.
      destruct (IH (pre ++ best :: mid) x []) as (l1 & l2 & Heq & H1 & H2).
      * intros y Hy. apply in_app_or in Hy. destruct Hy as [Hy|[Hy|Hy]].
        -- eapply Qlt_trans; [exact E|auto].
        -- subst y. exact E.
        -- eapply Qlt_le_trans; [exact E|auto].
      * intros y [].
      * exists l1, l2. split; [|auto].
        rewrite <- Heq. rewrite <- app_assoc. reflexivity.
    + apply Qlt_bool_false_iff in E.
      destruct (IH pre best (mid ++ [x])) as (l1 & l2 & Heq & H1 & H2).
      * exact Hpre.
      * intros y Hy. apply in_app_or in Hy. destruct Hy as [Hy|[Hy|[]]]; [auto|].
        subst y. exact E.
      * exists l1, l2. split; [|auto].
        rewrite <- Heq. rewrite <- app_assoc. reflexivity.
Qed.

(** ** The loop of [get_closest_value] *)

Lemma closest_loop_cons (x v : Q) (l : list Q) (fr : bool) (md lv : Q) :
  closest_loop x (v :: l) fr md lv =
  let delta := Qabs (v - x) in
  let md1 := if negb fr then delta else md in
  if Qeq_bool delta 0 then v
  else closest_loop x l true
         (if Qlt_bool delta md1 then delta else md1)
         (if Qlt_bool delta md1 then v else lv).
Proof. reflexivity. Qed.

(** The first iteration binds [min_delta] to the first delta and compares
    the delta with itself, so it never records the first value. *)
Lemma resolve_cons (x h : Q) (t : list Q) :
  resolve x (h :: t) =
  if Qeq_bool (Qabs (h - x)) 0 then h
  else closest_loop x t true (Qabs (h - x)) 0.
Proof.
  unfold resolve. rewrite closest_loop_cons. cbv zeta. cbn [negb].
  rewrite Qlt_bool_irrefl. reflexivity.
Qed.

Lemma closest_loop_result (x : Q) :
  forall l fr md lv,
    closest_loop x l fr md lv = lv \/ In (closest_loop x l fr md lv) l.
Proof.
  induction l as [|v l IH]; intros fr md lv; [left; reflexivity|].
  rewrite closest_loop_cons. cbv zeta.
  destruct (Qeq_bool (Qabs (v - x)) 0); [right; left; reflexivity|].
  match goal with |- context [closest_loop x l true ?m ?w] =>
    destruct (IH true m w) as [H|H] end.
  - rewrite H. destruct (Qlt_bool _ _); [right; left; reflexivity|left; reflexivity].
  - right. right. exact H.
Qed.

Lemma Qabs_sub_zero (v x : Q) : (Qabs (v - x) == 0)%Q <-> (v == x)%Q.
Proof.
  split; intro H.
  - apply (Qabs_case (v - x) (fun y => y == 0 -> v == x)%Q); try exact H;
      intros; lra.
  - rewrite H. setoid_replace (x - x)%Q with 0%Q by ring. reflexivity.
Qed.

(** Exact-match short-circuit: a target equal to a member is returned. *)
Lemma closest_loop_exact (x : Q) :
  forall l fr md lv,
    (exists v, In v l /\ (v == x)%Q) ->
    (closest_loop x l fr md lv == x)%Q.
Proof.
  induction l as [|v l IH]; intros fr md lv (w & Hin & Hw); [destruct Hin|].
  rewrite closest_loop_cons. cbv zeta.
  destruct (Qeq_bool (Qabs (v - x)) 0) eqn:E.
  - apply Qeq_bool_iff in E. apply Qabs_sub_zero. exact E.
  - apply IH. destruct Hin as [->|Hin].
    + apply Qeq_bool_false_iff in E. exfalso. apply E.
      apply Qabs_sub_zero. exact Hw.
    + exists w. auto.
Qed.

(** No later delta below the running minimum: the loop returns the value
    it was entered with, unless it meets an exact match. *)
Lemma closest_loop_keeps (x : Q) :
  forall l md lv,
    (forall v, In v l -> (md <= Qabs (v - x))%Q) ->
    closest_loop x l true md lv = lv \/ (closest_loop x l true md lv == x)%Q.
Proof.
  induction l as [|v l IH]; intros md lv Hmin; [left; reflexivity|].
  rewrite closest_loop_cons. cbv zeta. cbn [negb].
  assert (Hv : Qlt_bool (Qabs (v - x)) md = false).
  { apply Qlt_bool_false_iff. apply Hmin. left. reflexivity. }
  rewrite Hv. destruct (Qeq_bool (Qabs (v - x)) 0) eqn:E.
  - right. apply Qeq_bool_iff in E. apply Qabs_sub_zero. exact E.
  - apply IH. intros w Hw. apply Hmin. right. exact Hw.
Qed.

(** ** Fuel *)

Lemma bind_Ok {A B : Type} (r : result A) (k : A -> result B) (b : B) :
  bind r k = Ok b -> exists a, r = Ok a /\ k a = Ok b.
Proof.
  destruct r as [a| |]; simpl; intro H; try discriminate.
  exists a. auto.
Qed.

(** A run that ends within its fuel ends the same way with more. *)
Lemma calc_loop_fuel_mono (M : list Z) (MAX : Q) :
  forall fuel idx e v l,
    calc_loop fuel M MAX idx e v = Ok l ->
    forall fuel', (fuel <= fuel')%nat -> calc_loop fuel' M MAX idx e v = Ok l.
Proof.
  induction fuel as [|fuel IH]; intros idx e v l H fuel' Hle; [discriminate|].
  destruct fuel' as [|fuel']; [lia|].
  simpl in H |- *.
  destruct (Qle_bool v MAX); [|exact H].
  apply bind_Ok in H. destruct H as (i & -> & H). simpl.
  apply bind_Ok in H. destruct H as (m & -> & H). simpl.
  apply bind_Ok in H. destruct H as (v' & -> & H). simpl.
  apply bind_Ok in H. destruct H as (rest & Hrest & H).
  rewrite (IH _ _ _ _ Hrest fuel') by lia. exact H.
Qed.

Lemma calc_valid_inputs_fuel_mono (MIN MAX : Q) (M : list Z) (fuel : nat) (l : list Q) :
  calc_valid_inputs fuel MIN MAX M = Ok l ->
  forall fuel', (fuel <= fuel')%nat -> calc_valid_inputs fuel' MIN MAX M = Ok l.
Proof.
  unfold calc_valid_inputs. intros H fuel' Hle.
  apply bind_Ok in H. destruct H as (c & -> & H). simpl.
  apply bind_Ok in H. destruct H as (d & -> & H). simpl.
  apply bind_Ok in H. destruct H as (i & -> & H). simpl.
  apply bind_Ok in H. destruct H as (es & -> & H). simpl.
  apply bind_Ok in H. destruct H as (e & -> & H). simpl.
  eapply calc_loop_fuel_mono; eauto.
Qed.

(** ** Claims about the resolvers *)

(** C1 (fails on the code): [get_closest_value(1.25, 1, 10, (1,2,5))]
    builds the sequence [1, 2, 5, 10], whose first member 1 is the nearest
    to 1.25, and returns 0, which is not a member of the sequence. *)
Theorem get_closest_value_drops_first :
  calc_valid_inputs 5 1 10 [1; 2; 5] = Ok [1; 2; 5; 10]%Q /\
  get_closest_value 5 (5 # 4) 1 10 [1; 2; 5] = Ok 0%Q /\
  (forall v, In v [1; 2; 5; 10]%Q -> ~ (v == 0)%Q) /\
  (forall v, In v [1; 2; 5; 10]%Q ->
     (Qabs (1 - (5 # 4)) <= Qabs (v - (5 # 4)))%Q).
Proof.
  split; [reflexivity|]. split; [reflexivity|]. split.
  - intros v Hv. simpl in Hv.
    repeat (destruct Hv as [<-|Hv]; [discriminate|]). destruct Hv.
  - intros v Hv. simpl in Hv.
    repeat (destruct Hv as [<-|Hv]; [discriminate|]). destruct Hv.
Qed.

(** C3 (fails on the code): for [validated < target <= max(vals_valid)]
    control falls off the end of the [elif] branch, so [get_val_ceil]
    returns [None] and never the next element; the docstring's own example
    [get_val_ceil(10.1, 10, [1, 2, 5, 10, 20, 50])], documented as 20, is
    such an input. *)
Theorem get_val_ceil_falls_through :
  get_val_ceil (101 # 10) 10 [1; 2; 5; 10; 20; 50]%Q = Ok None /\
  forall target validated vals_valid m,
    (validated < target)%Q ->
    py_max vals_valid = Ok m ->
    (target <= m)%Q ->
    get_val_ceil target validated vals_valid = Ok None.
Proof.
  split; [reflexivity|].
  intros target validated vals m Hlt Hmax Hle.
  unfold get_val_ceil.
  assert (E1 : Qle_bool target validated = false)
    by (apply Qle_bool_false_iff; exact Hlt).
  assert (E2 : Qlt_bool validated target = true)
    by (apply Qlt_bool_iff; exact Hlt).
  assert (E3 : Qlt_bool m target = false)
    by (apply Qlt_bool_false_iff; exact Hle).
  rewrite E1, E2, Hmax. simpl. rewrite E3. reflexivity.
Qed.

(** ** Claims about the generator on concrete input *)

(** C5: [calc_valid_inputs(2e-3, 10, (1,2,5))] is the twelve-element
    sequence from 0.002 to 10.0; the loop test is [value <= MAX_VAL], so
    10.0 is included.  Thirteen loop tests suffice. *)
Theorem calc_valid_inputs_example (fuel : nat) (Hfuel : (13 <= fuel)%nat) :
  calc_valid_inputs fuel 0.002 10 [1; 2; 5] =
  Ok [0.002; 0.005; 0.01; 0.02; 0.05; 0.1; 0.2; 0.5; 1; 2; 5; 10]%Q.
Proof.
  apply (calc_valid_inputs_fuel_mono 0.002 10 [1; 2; 5] 13); [|exact Hfuel].
  vm_compute. reflexivity.
Qed.

Lemma calc_valid_inputs_example_witness :
  (13 <= 20)%nat /\
  calc_valid_inputs 20 0.002 10 [1; 2; 5] =
  Ok [0.002; 0.005; 0.01; 0.02; 0.05; 0.1; 0.2; 0.5; 1; 2; 5; 10]%Q.
Proof.
  split; [lia|]. apply (calc_valid_inputs_example 20). lia.
Defined.

(** ** The sample loop of [capture] *)

Lemma capture_loop_maps (scale_time scale_voltage offset_divisons : Q) :
  forall adc_wave index,
    capture_loop adc_wave index scale_time scale_voltage offset_divisons =
    (map (fun i => (scale_time * inject_Z (index + Z.of_nat i))%Q)
         (seq 0 (List.length adc_wave)),
     map (fun c => ((inject_Z c / 6400 - offset_divisons) * scale_voltage)%Q)
         adc_wave).
Proof.
  induction adc_wave as [|c l IH]; intro index; [reflexivity|].
  cbn [capture_loop List.length seq map]. rewrite IH.
  rewrite <- seq_shift, map_map. rewrite Z.add_0_r.
  f_equal. f_equal. apply map_ext. intro i.
  do 2 f_equal. lia.
Qed.

(** C7: [decode] maps the sample with code [c] at index [i] to the voltage
    [(float(c) / 6400 - offsetDivisions) * scale] and the time
    [samplePeriod * i], one output per input in input order, and
    [decode([6400], 1.0, 0.0, 1.0)] is the single sample with time 0 and
    voltage 1. *)
Theorem decode_pointwise (raw : list Z) (scale offsetDivisions samplePeriod : Q) :
  decode raw scale offsetDivisions samplePeriod =
    (map (fun i => (samplePeriod * inject_Z (Z.of_nat i))%Q)
         (seq 0 (List.length raw)),
     map (fun c => ((inject_Z c / 6400 - offsetDivisions) * scale)%Q) raw) /\
  List.length (fst (decode raw scale offsetDivisions samplePeriod)) = List.length raw /\
  List.length (snd (decode raw scale offsetDivisions samplePeriod)) = List.length raw /\
  (exists t v, decode [6400] 1 0 1 = ([t], [v]) /\ (t == 0)%Q /\ (v == 1)%Q).
Proof.
  unfold decode. rewrite !capture_loop_maps. cbn [fst snd].
  rewrite !length_map, length_seq.
  repeat split.
  eexists _, _. split; [reflexivity|]. split; reflexivity.
Qed.

(** ** The timebase token *)

Lemma str_mem_append (c : ascii) (s1 s2 : string) :
  str_mem c (s1 ++ s2)%string = str_mem c s1 || str_mem c s2.
Proof.
  induction s1 as [|a s1 IH]; [reflexivity|].
  simpl. rewrite IH. apply orb_assoc.
Qed.

Lemma str_join_cons (s : string) (l : list string) :
  str_join (s :: l) = (s ++ str_join l)%string.
Proof.
  unfold str_join. destruct l as [|s' l]; simpl.
  - induction s; simpl; congruence.
  - reflexivity.
Qed.

(** Splitting on a character and joining the pieces removes exactly that
    character. *)
Lemma str_mem_join_split (sep c : ascii) (s : string) :
  str_mem c (str_join (str_split sep s)) =
  negb (Ascii.eqb c sep) && str_mem c s.
Proof.
  induction s as [|a s IH].
  - simpl. rewrite andb_false_r. reflexivity.
  - cbn [str_split]. destruct (Ascii.eqb a sep) eqn:E.
    + rewrite str_join_cons. cbn [String.append str_mem]. rewrite IH.
      apply Ascii.eqb_eq in E. subst a.
      rewrite (Ascii.eqb_sym c sep).
      destruct (Ascii.eqb sep c); reflexivity.
    + destruct (str_split sep s) as [|hd tl] eqn:Es.
      * cbn in IH |- *. rewrite orb_false_r.
        destruct (Ascii.eqb a c) eqn:Eac.
        -- apply Ascii.eqb_eq in Eac. subst c. rewrite E. reflexivity.
        -- simpl. exact IH.
      * rewrite !str_join_cons in *. cbn [String.append str_mem].
        rewrite IH.
        destruct (Ascii.eqb a c) eqn:Eac.
        -- apply Ascii.eqb_eq in Eac. subst c. rewrite E. reflexivity.
        -- reflexivity.
Qed.

(** [split(" ")] followed by ["".join] is the removal of every space. *)
Lemma str_join_split_remove (c : ascii) (s : string) :
  str_join (str_split c s) = str_remove c s.
Proof.
  induction s as [|a s IH]; [reflexivity|].
  cbn [str_split str_remove]. destruct (Ascii.eqb a c).
  - rewrite str_join_cons. exact IH.
  - destruct (str_split c s) as [|hd tl] eqn:Es.
    + cbn in IH |- *. rewrite <- IH. reflexivity.
    + rewrite !str_join_cons in *. cbn [String.append]. rewrite IH.
      reflexivity.
Qed.

(** X24: what the timebase setter itself decides about its token,
    whatever [Quantity.render] returns.  [render] is called with
    [strip_zeros=False, prec=1] exactly for the twelve values 1, 2 and 5
    times 1e-9, 1e-6, 1e-3 and 1, and without arguments for every other
    value; the token is the returned text with every space removed and
    every other character kept, so it holds no space. *)
Theorem render_token_rendering (render : Quantity -> render_args -> string)
    (v : Q) (unit : string) :
  let q := {| real := v; units := unit |} in
  let padded :=
    (v == 1e-9 \/ v == 2e-9 \/ v == 5e-9 \/
     v == 1e-6 \/ v == 2e-6 \/ v == 5e-6 \/
     v == 1e-3 \/ v == 2e-3 \/ v == 5e-3 \/
     v == 1 \/ v == 2 \/ v == 5)%Q in
  exists args,
    (padded -> args = {| strip_zeros := Some false; prec := Some 1%nat |}) /\
    (~ padded -> args = {| strip_zeros := None; prec := None |}) /\
    render_token render v unit = str_remove " " (render q args) /\
    str_mem " " (render_token render v unit) = false /\
    (forall c, c <> " "%char ->
       str_mem c (render_token render v unit) = str_mem c (render q args)).
Proof.
  intros q padded.
  assert (Hin : py_in v time_dec = true <-> padded).
  { unfold py_in, time_dec, padded. cbn [existsb].
    rewrite !orb_true_iff, !Qeq_bool_iff. intuition discriminate. }
  exists (if py_in v time_dec then render_padded else render_default).
  assert (Htok : render_token render v unit =
                 str_join (str_split " "
                   (render q (if py_in v time_dec then render_padded
                              else render_default)))).
  { unfold render_token. cbn [real]. fold q.
    destruct (py_in v time_dec); reflexivity. }
  split; [|split; [|split; [|split]]].
  - intro Hp. apply Hin in Hp. rewrite Hp. reflexivity.
  - intro Hp. destruct (py_in v time_dec) eqn:E; [|reflexivity].
    exfalso. apply Hp, Hin. reflexivity.
  - rewrite Htok. apply str_join_split_remove.
  - rewrite Htok, str_mem_join_split, Ascii.eqb_refl. reflexivity.
  - intros c Hc. rewrite Htok, str_mem_join_split.
    apply Ascii.eqb_neq in Hc. rewrite Hc. reflexivity.
Qed.

(** ** Strings of integers *)

Lemma string_of_uint_no_e (d : Decimal.uint) :
  str_mem "e" (NilEmpty.string_of_uint d) = false.
Proof. induction d; simpl; auto. Qed.

Lemma nz_string_of_uint_no_e (d : Decimal.uint) :
  str_mem "e" (NilZero.string_of_uint d) = false.
Proof. destruct d; try reflexivity; exact (string_of_uint_no_e _). Qed.

Lemma py_str_int_no_e (z : Z) : str_mem "e" (py_str_int z) = false.
Proof.
  unfold py_str_int. destruct z; simpl; try reflexivity;
    apply nz_string_of_uint_no_e.
Qed.

Lemma zero_pad_no_e (k : nat) (s : string) :
  str_mem "e" s = false -> str_mem "e" (zero_pad k s) = false.
Proof. induction k; simpl; auto. Qed.

Lemma to_int_not_nil (z : Z) :
  Z.to_int z <> Decimal.Pos Decimal.Nil /\ Z.to_int z <> Decimal.Neg Decimal.Nil.
Proof.
  destruct z as [|p|p]; simpl; split; try discriminate; intros [= H];
    exact (DecimalPos.Unsigned.to_uint_nonnil p H).
Qed.

(** [int(str(n)) == n]. *)
Lemma py_int_str (z : Z) : py_int (py_str_int z) = Ok z.
Proof.
  unfold py_int, py_str_int.
  destruct (to_int_not_nil z) as [Hp Hn].
  pose proof (NilZero.isi (Z.to_int z) Hp Hn) as H.
  destruct (NilZero.string_of_int (Z.to_int z)) as [|a s'] eqn:Es.
  - discriminate H.
  - destruct (Ascii.eqb_spec a "+") as [->|Hne].
    + exfalso. cbn in H.
      destruct (NilEmpty.uint_of_string s'); discriminate H.
    + rewrite H. rewrite DecimalZ.of_to. reflexivity.
Qed.

Lemma str_first_digit (d : Z) (rest : string) :
  0 <= d <= 9 -> str_first (py_str_int d ++ rest)%string = Ok (py_str_int d).
Proof.
  intro H.
  assert (E : d = 0 \/ d = 1 \/ d = 2 \/ d = 3 \/ d = 4 \/ d = 5 \/ d = 6 \/
              d = 7 \/ d = 8 \/ d = 9) by lia.
  repeat (destruct E as [->|E]; [reflexivity|]). subst d. reflexivity.
Qed.

(** ** Splitting *)

Lemma str_split_none (c : ascii) (s : string) :
  str_mem c s = false -> str_split c s = [s].
Proof.
  induction s as [|a s IH]; [reflexivity|].
  cbn [str_mem str_split]. intro H. apply orb_false_iff in H.
  destruct H as [Ha Hs]. rewrite Ha, (IH Hs). reflexivity.
Qed.

Lemma str_split_append (c : ascii) (a b : string) :
  str_mem c a = false ->
  str_split c (a ++ String c b)%string = a :: str_split c b.
Proof.
  induction a as [|x a IH]; intro H.
  - cbn [String.append str_split]. rewrite Ascii.eqb_refl. reflexivity.
  - cbn [str_mem] in H. apply orb_false_iff in H. destruct H as [Hx Ha].
    cbn [String.append str_split]. rewrite Hx, (IH Ha). reflexivity.
Qed.

Lemma append_assoc (a b c : string) :
  ((a ++ b) ++ c)%string = (a ++ (b ++ c))%string.
Proof. induction a; simpl; congruence. Qed.

(** [float('{0}e{1}'.format(m, e))] is [m * 10^e]. *)
Lemma py_float_literal (m e : Z) :
  py_float (py_str_int m ++ "e" ++ py_str_int e)%string =
  Ok (inject_Z m * pow10 e)%Q.
Proof.
  unfold py_float.
  change ("e" ++ py_str_int e)%string with (String "e" (py_str_int e)).
  rewrite str_split_append by apply py_str_int_no_e.
  rewrite str_split_none by apply py_str_int_no_e.
  rewrite !py_int_str. reflexivity.
Qed.

(** ** The exponent field of ['{0:e}'] *)

Lemma of_uint_zero_pad (k : nat) (s : string) (d : Decimal.uint) :
  NilZero.uint_of_string s = Some d ->
  exists d', NilZero.uint_of_string (zero_pad k s) = Some d' /\
             Z.of_uint d' = Z.of_uint d.
Proof.
  intro H. induction k as [|k (d' & Hd' & Hz)]; [exists d; auto|].
  exists (Decimal.D0 d'). split; [|exact Hz].
  cbn [zero_pad]. unfold NilZero.uint_of_string in Hd' |- *.
  cbn [NilEmpty.uint_of_string].
  destruct (zero_pad k s); [discriminate|].
  rewrite Hd'. reflexivity.
Qed.

Lemma nz_uint_of_str_nonneg (n : Z) :
  0 <= n ->
  exists d, NilZero.uint_of_string (py_str_int n) = Some d /\ Z.of_uint d = n.
Proof.
  intro H. unfold py_str_int. destruct n as [|p|p]; [| |lia].
  - exists Decimal.zero. split; reflexivity.
  - exists (Pos.to_uint p). cbn [Z.to_int NilZero.string_of_int]. split.
    + apply NilZero.usu. apply DecimalPos.Unsigned.to_uint_nonnil.
    + unfold Z.of_uint. rewrite DecimalPos.Unsigned.of_to. reflexivity.
Qed.

(** [int] reads back the exponent that ['{0:e}'] printed. *)
Lemma py_int_format_exp (e : Z) : py_int (format_exp e) = Ok e.
Proof.
  unfold format_exp, pad_to.
  destruct (nz_uint_of_str_nonneg (Z.abs e) (Z.abs_nonneg e)) as (d & Hd & Hz).
  destruct (of_uint_zero_pad (2 - String.length (py_str_int (Z.abs e)))
              _ _ Hd) as (d' & Hd' & Hz').
  destruct (e <? 0) eqn:E; cbn [String.append py_int].
  - apply Z.ltb_lt in E.
    change (Ascii.eqb "-" "+") with false. cbv iota.
    unfold NilZero.int_of_string. rewrite Ascii.eqb_refl, Hd'.
    cbn [option_map Z.of_int]. rewrite Hz', Hz. f_equal. lia.
  - apply Z.ltb_ge in E.
    rewrite Ascii.eqb_refl, Hd'. rewrite Hz', Hz. f_equal. lia.
Qed.

Lemma format_exp_no_e (e : Z) : str_mem "e" (format_exp e) = false.
Proof.
  unfold format_exp, pad_to.
  rewrite str_mem_append, zero_pad_no_e by apply py_str_int_no_e.
  destruct (e <? 0); reflexivity.
Qed.

(** ** Powers of ten *)

Lemma pow10_Qpower (e : Z) : (pow10 e == 10 ^ e)%Q.
Proof.
  unfold pow10. destruct (Z.leb_spec 0 e) as [H|H].
  - rewrite Zpower_Qpower by assumption. reflexivity.
  - replace e with (- (- e)) at 2 by lia.
    rewrite Qpower_opp, <- (Zpower_Qpower 10 (- e)) by lia.
    assert (Hp : 0 < 10 ^ (- e)) by (apply Z.pow_pos_nonneg; lia).
    destruct (10 ^ (- e)) as [|q|q]; try lia. reflexivity.
Qed.

Lemma pow10_pos (e : Z) : (0 < pow10 e)%Q.
Proof. rewrite pow10_Qpower. apply Qpower_0_lt. reflexivity. Qed.

Lemma pow10_add (a b : Z) : (pow10 (a + b) == pow10 a * pow10 b)%Q.
Proof. rewrite !pow10_Qpower. apply Qpower_plus. discriminate. Qed.

Lemma pow10_succ (e : Z) : (pow10 (e + 1) == 10 * pow10 e)%Q.
Proof. rewrite pow10_add. change (pow10 1) with 10%Q. ring. Qed.

Lemma pow10_le (a b : Z) : a <= b -> (pow10 a <= pow10 b)%Q.
Proof.
  intro H. rewrite !pow10_Qpower. apply Qpower_le_compat_l; [exact H|].
  discriminate.
Qed.

(** ** The decimal exponent *)

Lemma find_exp_spec (x : Q) :
  forall fuel e,
    (x < pow10 (e + 1))%Q ->
    (pow10 (e - Z.of_nat fuel) <= x)%Q ->
    (pow10 (find_exp fuel e x) <= x < pow10 (find_exp fuel e x + 1))%Q.
Proof.
  induction fuel as [|fuel IH]; intros e Hhi Hlo.
  - cbn [find_exp]. replace (e - Z.of_nat 0) with e in Hlo by lia. auto.
  - cbn [find_exp]. destruct (Qle_bool (pow10 e) x) eqn:E.
    + apply Qle_bool_iff in E. auto.
    + apply Qle_bool_false_iff in E. apply IH.
      * replace (e - 1 + 1) with e by lia. exact E.
      * replace (e - 1 - Z.of_nat fuel) with (e - Z.of_nat (S fuel)) by lia.
        exact Hlo.
Qed.

Lemma pow2_le_pow10 (k : Z) : 0 <= k -> 2 ^ k <= 10 ^ k.
Proof. intro H. apply Z.pow_le_mono_l. lia. Qed.

Lemma exponent10_spec (x : Q) :
  (0 < x)%Q ->
  (pow10 (exponent10 x) <= x < pow10 (exponent10 x + 1))%Q.
Proof.
  intro Hx. unfold exponent10.
  destruct x as [n d]. cbn [Qnum Qden].
  assert (Hn : 0 < n).
  { unfold Qlt in Hx. cbn in Hx. lia. }
  pose proof (Z.log2_nonneg n) as Hl2n.
  pose proof (Z.log2_nonneg (Z.pos d)) as Hl2d.
  destruct (Z.log2_spec n Hn) as [_ Hnhi].
  destruct (Z.log2_spec (Z.pos d) (Pos2Z.is_pos d)) as [_ Hdhi].
  apply find_exp_spec.
  - unfold pow10. destruct (Z.leb_spec 0 (Z.log2 n + 1)) as [_|]; [|lia].
    unfold Qlt. cbn [Qnum Qden inject_Z].
    pose proof (pow2_le_pow10 (Z.log2 n + 1) ltac:(lia)) as H210.
    replace (Z.succ (Z.log2 n)) with (Z.log2 n + 1) in Hnhi by lia.
    nia.
  - rewrite Z2Nat.id by lia.
    replace (Z.log2 n - (Z.log2 n + (Z.log2 (Z.pos d) + 1)))
      with (- (Z.log2 (Z.pos d) + 1)) by lia.
    unfold pow10.
    destruct (Z.leb_spec 0 (- (Z.log2 (Z.pos d) + 1))) as [|_]; [lia|].
    rewrite Z.opp_involutive.
    pose proof (pow2_le_pow10 (Z.log2 (Z.pos d) + 1) ltac:(lia)) as H210.
    replace (Z.succ (Z.log2 (Z.pos d))) with (Z.log2 (Z.pos d) + 1) in Hdhi by lia.
    unfold Qle. cbn [Qnum Qden].
    rewrite Z2Pos.id by lia. nia.
Qed.

(** ** Rounding half to even *)

Lemma round_half_even_spec (x : Q) :
  (x - (1 # 2) <= inject_Z (round_half_even x) <= x + (1 # 2))%Q.
Proof.
  unfold round_half_even.
  pose proof (Qfloor_le x) as Hlo. pose proof (Qlt_floor x) as Hhi.
  rewrite inject_Z_plus in Hhi. change (inject_Z 1) with 1%Q in Hhi.
  destruct (Qlt_bool (x - inject_Z (Qfloor x)) (1 # 2)) eqn:E1.
  - apply Qlt_bool_iff in E1. lra.
  - apply Qlt_bool_false_iff in E1.
    destruct (Qlt_bool (1 # 2) (x - inject_Z (Qfloor x))) eqn:E2.
    + rewrite inject_Z_plus. change (inject_Z 1) with 1%Q. lra.
    + apply Qlt_bool_false_iff in E2.
      destruct (Z.even (Qfloor x)).
      * lra.
      * rewrite inject_Z_plus. change (inject_Z 1) with 1%Q. lra.
Qed.

Lemma round_half_even_between (x : Q) (a b : Z) :
  (inject_Z a <= x)%Q -> (x <= inject_Z b)%Q ->
  a <= round_half_even x <= b.
Proof.
  intros Ha Hb. destruct (round_half_even_spec x) as [Hlo Hhi].
  split.
  - cut (a - 1 < round_half_even x); [lia|].
    rewrite Zlt_Qlt. unfold Zminus. rewrite inject_Z_plus, inject_Z_opp.
    change (inject_Z 1) with 1%Q. lra.
  - cut (round_half_even x < b + 1); [lia|].
    rewrite Zlt_Qlt. rewrite inject_Z_plus.
    change (inject_Z 1) with 1%Q. lra.
Qed.

(** ** Rounding to the nearest double *)

Lemma pow2_Qpower (e : Z) : (pow2 e == 2 ^ e)%Q.
Proof.
  unfold pow2. destruct (Z.leb_spec 0 e) as [H|H].
  - rewrite Zpower_Qpower by assumption. reflexivity.
  - replace e with (- (- e)) at 2 by lia.
    rewrite Qpower_opp, <- (Zpower_Qpower 2 (- e)) by lia.
    assert (Hp : 0 < 2 ^ (- e)) by (apply Z.pow_pos_nonneg; lia).
    destruct (2 ^ (- e)) as [|q|q]; try lia. reflexivity.
Qed.

Lemma pow2_pos (e : Z) : (0 < pow2 e)%Q.
Proof. rewrite pow2_Qpower. apply Qpower_0_lt. reflexivity. Qed.

Lemma pow2_add (a b : Z) : (pow2 (a + b) == pow2 a * pow2 b)%Q.
Proof. rewrite !pow2_Qpower. apply Qpower_plus. discriminate. Qed.

Lemma pow2_le (a b : Z) : a <= b -> (pow2 a <= pow2 b)%Q.
Proof.
  intro H. rewrite !pow2_Qpower. apply Qpower_le_compat_l; [exact H|].
  discriminate.
Qed.

Lemma pow2_nonneg_exp (e : Z) : 0 <= e -> pow2 e = inject_Z (2 ^ e).
Proof.
  intro H. unfold pow2. destruct (Z.leb_spec 0 e); [reflexivity|lia].
Qed.

Lemma exponent2_spec (x : Q) :
  (0 < x)%Q -> (pow2 (exponent2 x) <= x < pow2 (exponent2 x + 1))%Q.
Proof.
  intro Hx. unfold exponent2.
  destruct x as [n d]. cbn [Qnum Qden].
  assert (Hn : 0 < n) by (unfold Qlt in Hx; cbn in Hx; lia).
  pose proof (Z.log2_nonneg n) as Ha.
  pose proof (Z.log2_nonneg (Z.pos d)) as Hb.
  destruct (Z.log2_spec n Hn) as [Hnlo Hnhi].
  destruct (Z.log2_spec (Z.pos d) (Pos2Z.is_pos d)) as [Hdlo Hdhi].
  set (a := Z.log2 n) in *. set (b := Z.log2 (Z.pos d)) in *.
  replace (Z.succ a) with (a + 1) in Hnhi by lia.
  replace (Z.succ b) with (b + 1) in Hdhi by lia.
  assert (Hxd : ((n # d) * inject_Z (Z.pos d) == inject_Z n)%Q).
  { unfold Qeq. cbn. rewrite Pos.mul_1_r. ring. }
  assert (HD : (0 < inject_Z (Z.pos d))%Q) by reflexivity.
  rewrite Zle_Qle in Hnlo, Hdlo. rewrite Zlt_Qlt in Hnhi, Hdhi.
  rewrite <- !pow2_nonneg_exp in Hnlo, Hnhi, Hdlo, Hdhi by lia.
  assert (Hup : (pow2 (a - b + 1) * pow2 b == pow2 (a + 1))%Q).
  { rewrite <- pow2_add. replace (a - b + 1 + b) with (a + 1) by lia. reflexivity. }
  assert (Hdn : (pow2 (a - b - 1) * pow2 (b + 1) == pow2 a)%Q).
  { rewrite <- pow2_add. replace (a - b - 1 + (b + 1)) with a by lia. reflexivity. }
  pose proof (pow2_pos (a - b + 1)) as P1.
  pose proof (pow2_pos (a - b - 1)) as P2.
  destruct (Qle_bool (pow2 (a - b)) (n # d)) eqn:E.
  - apply Qle_bool_iff in E. split; [exact E|].
    apply Qnot_le_lt. intro Hc.
    assert ((pow2 (a - b + 1) * inject_Z (Z.pos d) <= inject_Z n)%Q) by nra.
    nra.
  - apply Qle_bool_false_iff in E.
    replace (a - b - 1 + 1) with (a - b) by lia. split; [|exact E].
    apply Qnot_lt_le. intro Hc.
    assert ((inject_Z n < pow2 (a - b - 1) * inject_Z (Z.pos d))%Q) by nra.
    nra.
Qed.

Lemma round_half_even_mono (x y : Q) :
  (x <= y)%Q -> round_half_even x <= round_half_even y.
Proof.
  intro H. pose proof (Qfloor_resp_le _ _ H) as Hf.
  pose proof (Qfloor_le x) as Hx1. pose proof (Qlt_floor x) as Hx2.
  pose proof (Qfloor_le y) as Hy1. pose proof (Qlt_floor y) as Hy2.
  rewrite inject_Z_plus in Hx2, Hy2. change (inject_Z 1) with 1%Q in Hx2, Hy2.
  unfold round_half_even.
  destruct (Z.eq_dec (Qfloor x) (Qfloor y)) as [E|E].
  - rewrite E in *.
    repeat match goal with
    | |- context [Qlt_bool ?u ?v] =>
        let T := fresh "T" in
        destruct (Qlt_bool u v) eqn:T;
        [apply Qlt_bool_iff in T|apply Qlt_bool_false_iff in T]
    end;
    try destruct (Z.even (Qfloor y)); try lia; exfalso; lra.
  - repeat match goal with
    | |- context [Qlt_bool ?u ?v] => destruct (Qlt_bool u v)
    end;
    try destruct (Z.even (Qfloor x)); try destruct (Z.even (Qfloor y)); lia.
Qed.

Lemma Qabs_pos_eq (a : Q) : (0 < a)%Q -> Qabs a = a.
Proof.
  destruct a as [[|p|p] d]; intro H; try reflexivity; discriminate H.
Qed.

(** Rounding a positive number: the significand at the exponent of the
    number, or at the least exponent of a normal double. *)
Lemma round_positive (a : Q) :
  (0 < a)%Q ->
  Binary64.round a =
  (inject_Z (round_half_even (a * pow2 (52 - Z.max (exponent2 a) (- 1022)))) *
   pow2 (Z.max (exponent2 a) (- 1022) - 52))%Q.
Proof.
  intro H. unfold Binary64.round. rewrite (Qabs_pos_eq a H).
  assert (E1 : Qeq_bool a 0 = false).
  { apply Qeq_bool_false_iff. intro E. rewrite E in H. discriminate H. }
  assert (E2 : Qlt_bool a 0 = false).
  { apply Qlt_bool_false_iff. apply Qlt_le_weak. exact H. }
  rewrite E1, E2. reflexivity.
Qed.

Lemma round_zero (a : Q) : (a == 0)%Q -> Binary64.round a = 0%Q.
Proof.
  intro H. unfold Binary64.round.
  assert (E : Qeq_bool (Qabs a) 0 = true).
  { apply Qeq_bool_iff. rewrite H. reflexivity. }
  rewrite E. reflexivity.
Qed.

Lemma round_nonneg (a : Q) : (0 <= a)%Q -> (0 <= Binary64.round a)%Q.
Proof.
  intro H. destruct (Qlt_le_dec 0 a) as [Hpos|Hle].
  - rewrite (round_positive a Hpos).
    set (e := Z.max (exponent2 a) (- 1022)).
    pose proof (pow2_pos (52 - e)) as P1. pose proof (pow2_pos (e - 52)) as P2.
    assert (Hs : (inject_Z 0 <= a * pow2 (52 - e))%Q).
    { change (inject_Z 0) with 0%Q. nra. }
    pose proof (round_half_even_between _ 0 _ Hs (Qle_ceiling _)) as [Hm _].
    rewrite Zle_Qle in Hm. change (inject_Z 0) with 0%Q in Hm. nra.
  - rewrite round_zero; [apply Qle_refl|]. apply Qle_antisym; assumption.
Qed.

(** Rounding is symmetric in the sign. *)
Lemma round_Qabs (x : Q) : (Qabs (Binary64.round x) == Binary64.round (Qabs x))%Q.
Proof.
  destruct (Qlt_le_dec x 0) as [Hneg|Hpos].
  - assert (Ha : (0 < Qabs x)%Q).
    { rewrite Qabs_neg by (apply Qlt_le_weak; exact Hneg). lra. }
    pose proof (round_nonneg (Qabs x) (Qlt_le_weak _ _ Ha)) as Hr.
    rewrite (round_positive _ Ha) in *.
    unfold Binary64.round.
    assert (E1 : Qeq_bool (Qabs x) 0 = false).
    { apply Qeq_bool_false_iff. intro E. rewrite E in Ha. discriminate Ha. }
    assert (E2 : Qlt_bool x 0 = true) by (apply Qlt_bool_iff; exact Hneg).
    rewrite E1, E2. rewrite Qabs_opp. apply Qabs_pos. exact Hr.
  - rewrite (Qabs_pos (Binary64.round x)) by (apply round_nonneg; exact Hpos).
    destruct (Qlt_le_dec 0 x) as [H|H].
    + rewrite (Qabs_pos_eq x H). reflexivity.
    + assert (E : (x == 0)%Q) by (apply Qle_antisym; assumption).
      rewrite (round_zero x E). rewrite round_zero; [reflexivity|].
      rewrite E. reflexivity.
Qed.

(** Rounding keeps the order. *)
Lemma round_mono (a b : Q) :
  (0 <= a)%Q -> (a <= b)%Q -> (Binary64.round a <= Binary64.round b)%Q.
Proof.
  intros Ha Hab. destruct (Qlt_le_dec 0 a) as [Hpos|Hle].
  2:{ rewrite (round_zero a) by (apply Qle_antisym; assumption).
      apply round_nonneg. lra. }
  assert (Hb : (0 < b)%Q) by lra.
  rewrite (round_positive a Hpos), (round_positive b Hb).
  destruct (exponent2_spec a Hpos) as [La Ua].
  destruct (exponent2_spec b Hb) as [Lb Ub].
  assert (He : exponent2 a <= exponent2 b).
  { destruct (Z_le_gt_dec (exponent2 a) (exponent2 b)) as [H|H]; [exact H|].
    pose proof (pow2_le (exponent2 b + 1) (exponent2 a) ltac:(lia)). lra. }
  set (ea := Z.max (exponent2 a) (- 1022)).
  set (eb := Z.max (exponent2 b) (- 1022)).
  pose proof (pow2_pos (52 - ea)) as Pa. pose proof (pow2_pos (ea - 52)) as Pa'.
  pose proof (pow2_pos (52 - eb)) as Pb. pose proof (pow2_pos (eb - 52)) as Pb'.
  destruct (Z.eq_dec ea eb) as [E|E].
  - rewrite <- E in *.
    assert (Hs : (a * pow2 (52 - ea) <= b * pow2 (52 - ea))%Q) by nra.
    pose proof (round_half_even_mono _ _ Hs) as Hm.
    rewrite Zle_Qle in Hm. nra.
  - assert (Hlt : ea < eb) by lia.
    assert (Eb : eb = exponent2 b) by lia.
    assert (Ua' : (a < pow2 (ea + 1))%Q).
    { pose proof (pow2_le (exponent2 a + 1) (ea + 1) ltac:(lia)). lra. }
    assert (S1 : (pow2 (ea + 1) * pow2 (52 - ea) == inject_Z (2 ^ 53))%Q).
    { rewrite <- pow2_add. replace (ea + 1 + (52 - ea)) with 53 by lia.
      reflexivity. }
    assert (S2 : (inject_Z (2 ^ 53) * pow2 (ea - 52) == pow2 (ea + 1))%Q).
    { change (inject_Z (2 ^ 53)) with (pow2 53). rewrite <- pow2_add.
      replace (53 + (ea - 52)) with (ea + 1) by lia. reflexivity. }
    assert (S3 : (pow2 eb * pow2 (52 - eb) == inject_Z (2 ^ 52))%Q).
    { rewrite <- pow2_add. replace (eb + (52 - eb)) with 52 by lia.
      reflexivity. }
    assert (S4 : (inject_Z (2 ^ 52) * pow2 (eb - 52) == pow2 eb)%Q).
    { change (inject_Z (2 ^ 52)) with (pow2 52). rewrite <- pow2_add.
      replace (52 + (eb - 52)) with eb by lia. reflexivity. }
    assert (Hsa : (a * pow2 (52 - ea) <= inject_Z (2 ^ 53))%Q) by nra.
    assert (Hsa0 : (inject_Z 0 <= a * pow2 (52 - ea))%Q).
    { change (inject_Z 0) with 0%Q. nra. }
    pose proof (round_half_even_between _ _ _ Hsa0 Hsa) as [_ Hma].
    assert (Hsb : (inject_Z (2 ^ 52) <= b * pow2 (52 - eb))%Q).
    { rewrite Eb in *. nra. }
    assert (Hsb' : (b * pow2 (52 - eb) <= inject_Z (Qceiling (b * pow2 (52 - eb))))%Q)
      by apply Qle_ceiling.
    pose proof (round_half_even_between _ _ _ Hsb Hsb') as [Hmb _].
    rewrite Zle_Qle in Hma, Hmb.
    pose proof (pow2_le (ea + 1) eb ltac:(lia)) as Hstep.
    apply Qle_trans with (pow2 (ea + 1)); [nra|].
    apply Qle_trans with (pow2 eb); [exact Hstep|nra].
Qed.

(** The computed difference [abs(x - target)] follows the order of the
    exact differences. *)
Lemma computed_delta_mono (x y target : Q) :
  (Qabs (x - target) <= Qabs (y - target))%Q ->
  (Qabs (Binary64.sub x target) <= Qabs (Binary64.sub y target))%Q.
Proof.
  intro H. unfold Binary64.sub. rewrite !round_Qabs.
  apply round_mono; [apply Qabs_nonneg|exact H].
Qed.

(** ** The resolver [validate_input] on floats *)

(** C10 as stated fails on floats: for the target [2^-60] and the list
    [[-1.0, 1.0]] both computed differences round to 1.0, so [min] keeps
    the first element, -1.0, although 1.0 is strictly nearer.  All three
    numbers are doubles. *)
Lemma validate_input_rounding_tie :
  (Binary64.round (-1) == -1)%Q /\ (Binary64.round 1 == 1)%Q /\
  (Binary64.round (1 # 2 ^ 60) == 1 # 2 ^ 60)%Q /\
  (Binary64.sub (-1) (1 # 2 ^ 60) == -1)%Q /\
  (Binary64.sub 1 (1 # 2 ^ 60) == 1)%Q /\
  Binary64.validate_input (1 # 2 ^ 60) [-1; 1]%Q = Ok (-1)%Q /\
  (Qabs (1 - (1 # 2 ^ 60)) < Qabs (-1 - (1 # 2 ^ 60)))%Q.
Proof.
  repeat split; vm_compute; reflexivity.
Qed.

(** C10 (amended): on a non-empty list [validate_input] returns the
    earliest member whose computed difference [abs(x - target)], the exact
    difference rounded to the nearest double, is least: the list splits
    around the result, every earlier element has a strictly larger
    computed difference and no later element a smaller one.  In exact
    terms every earlier element is strictly farther from the target, and
    a member that is as near as the result or nearer has the same computed
    difference as the result. *)
Theorem validate_input_first_minimum (target : Q) (vals_valid : list Q)
    (Hne : vals_valid <> []) :
  exists r l1 l2,
    Binary64.validate_input target vals_valid = Ok r /\
    vals_valid = l1 ++ r :: l2 /\
    (forall y, In y l1 ->
       (Qabs (Binary64.sub r target) < Qabs (Binary64.sub y target))%Q /\
       (Qabs (r - target) < Qabs (y - target))%Q) /\
    (forall y, In y l2 ->
       (Qabs (Binary64.sub r target) <= Qabs (Binary64.sub y target))%Q) /\
    (forall y, In y vals_valid ->
       (Qabs (y - target) <= Qabs (r - target))%Q ->
       (Qabs (Binary64.sub y target) == Qabs (Binary64.sub r target))%Q).
Proof.
  destruct vals_valid as [|x l]; [congruence|].
  unfold Binary64.validate_input, py_min_key.
  destruct (min_from_split (fun x => Qabs (Binary64.sub x target)) l [] x [])
    as (l1 & l2 & Heq & H1 & H2); try (intros y []).
  set (r := min_from (fun x => Qabs (Binary64.sub x target)) x l) in *.
  cbv beta in H1, H2. simpl in Heq.
  exists r, l1, l2.
  split; [reflexivity|]. split; [exact Heq|]. split; [|split].
  - intros y Hy. split; [exact (H1 y Hy)|].
    apply Qnot_le_lt. intro Hc.
    pose proof (computed_delta_mono y r target Hc) as Hm.
    specialize (H1 y Hy). lra.
  - exact H2.
  - intros y Hy Hc. rewrite Heq in Hy.
    pose proof (computed_delta_mono y r target Hc) as Hm.
    apply Qle_antisym; [exact Hm|].
    apply in_app_or in Hy. destruct Hy as [Hy|[Hy|Hy]].
    + apply Qlt_le_weak. exact (H1 y Hy).
    + subst y. apply Qle_refl.
    + exact (H2 y Hy).
Qed.

Lemma validate_input_first_minimum_witness :
  [1; 2; 5; 10; 20]%Q <> [] /\
  Binary64.validate_input (101 # 10) [1; 2; 5; 10; 20]%Q = Ok 10%Q /\
  exists r l1 l2,
    Binary64.validate_input (101 # 10) [1; 2; 5; 10; 20]%Q = Ok r /\
    [1; 2; 5; 10; 20]%Q = l1 ++ r :: l2 /\
    (forall y, In y l1 ->
       (Qabs (Binary64.sub r (101 # 10)) < Qabs (Binary64.sub y (101 # 10)))%Q /\
       (Qabs (r - (101 # 10)) < Qabs (y - (101 # 10)))%Q) /\
    (forall y, In y l2 ->
       (Qabs (Binary64.sub r (101 # 10)) <= Qabs (Binary64.sub y (101 # 10)))%Q) /\
    (forall y, In y [1; 2; 5; 10; 20]%Q ->
       (Qabs (y - (101 # 10)) <= Qabs (r - (101 # 10)))%Q ->
       (Qabs (Binary64.sub y (101 # 10)) == Qabs (Binary64.sub r (101 # 10)))%Q).
Proof.
  split; [discriminate|]. split; [vm_compute; reflexivity|].
  apply (validate_input_first_minimum (101 # 10) [1; 2; 5; 10; 20]%Q).
  discriminate.
Defined.

(** ** The digits of ['{0:e}'] *)

Lemma pow10_split (e : Z) : (pow10 e * pow10 (6 - e) == pow10 6)%Q.
Proof.
  rewrite <- pow10_add. replace (e + (6 - e)) with 6 by lia. reflexivity.
Qed.

(** Seven digits, and [x] lies below the next leading digit. *)
Lemma sci_digits_spec (x : Q) :
  (0 < x)%Q ->
  10 ^ 6 <= fst (sci_digits x) < 10 ^ 7 /\
  (x < inject_Z (leading_digit x + 1) * pow10 (sci_exponent x))%Q.
Proof.
  intro Hx. unfold leading_digit, sci_exponent, sci_digits.
  destruct (exponent10_spec x Hx) as [Hlo Hhi].
  set (e0 := exponent10 x) in *.
  set (s := (x * pow10 (6 - e0))%Q).
  pose proof (pow10_pos (6 - e0)) as Hp.
  assert (Hs1 : (inject_Z (10 ^ 6) <= s)%Q).
  { change (inject_Z (10 ^ 6)) with (pow10 6). rewrite <- (pow10_split e0).
    apply Qmult_le_compat_r; [exact Hlo|]. apply Qlt_le_weak. exact Hp. }
  assert (Hs2 : (s < inject_Z (10 ^ 7))%Q).
  { change (inject_Z (10 ^ 7)) with (pow10 (6 + 1)).
    rewrite pow10_succ, <- (pow10_split e0), Qmult_assoc.
    apply Qmult_lt_compat_r; [exact Hp|].
    rewrite <- pow10_succ. exact Hhi. }
  pose proof (round_half_even_between s (10 ^ 6) (10 ^ 7) Hs1
                (Qlt_le_weak _ _ Hs2)) as Hm.
  destruct (round_half_even_spec s) as [Hr _].
  set (m0 := round_half_even s) in *.
  change (10 ^ 6) with 1000000 in *. change (10 ^ 7) with 10000000 in *.
  destruct (Z.eqb_spec m0 10000000) as [E|E]; cbn [fst snd].
  - split; [lia|]. change (1000000 / 1000000 + 1) with 2.
    pose proof (pow10_pos (e0 + 1)). change (inject_Z 2) with 2%Q. lra.
  - split; [lia|].
    pose proof (Z.div_mod m0 1000000 ltac:(lia)) as Hdm.
    pose proof (Z.mod_pos_bound m0 1000000 ltac:(lia)) as Hmod.
    set (d := m0 / 1000000) in *.
    assert (Hz : m0 + 1 <= (d + 1) * 1000000) by lia.
    rewrite Zle_Qle, inject_Z_mult, inject_Z_plus in Hz.
    change (inject_Z 1) with 1%Q in Hz.
    apply (Qmult_lt_r _ _ (pow10 (6 - e0))); [exact Hp|].
    rewrite <- Qmult_assoc, (pow10_split e0).
    fold s. change (pow10 6) with (inject_Z 1000000). lra.
Qed.

Lemma leading_digit_range (x : Q) : (0 < x)%Q -> 1 <= leading_digit x <= 9.
Proof.
  intro Hx. destruct (sci_digits_spec x Hx) as [[Hlo Hhi] _].
  unfold leading_digit. change (10 ^ 6) with 1000000 in *.
  change (10 ^ 7) with 10000000 in *.
  split.
  - apply Z.div_le_lower_bound; lia.
  - cut (fst (sci_digits x) / 1000000 < 10); [lia|].
    apply Z.div_lt_upper_bound; lia.
Qed.

(** ** What [calc_valid_inputs] reads off ['{0:e}'.format(MIN_VAL)] *)

Lemma format_e_positive (x : Q) : (0 < x)%Q -> format_e x = format_e_pos x.
Proof.
  intro Hx. unfold format_e.
  assert (E1 : Qeq_bool x 0 = false).
  { apply Qeq_bool_false_iff. intro H. rewrite H in Hx. discriminate Hx. }
  assert (E2 : Qlt_bool x 0 = false).
  { apply Qlt_bool_false_iff. apply Qlt_le_weak. exact Hx. }
  rewrite E1, E2. reflexivity.
Qed.

Lemma format_e_pos_first (x : Q) :
  (0 < x)%Q -> str_first (format_e_pos x) = Ok (py_str_int (leading_digit x)).
Proof.
  intro Hx. pose proof (leading_digit_range x Hx) as Hd.
  unfold format_e_pos, leading_digit in *.
  destruct (sci_digits x) as [m e]. cbn [fst] in *. cbv zeta.
  apply str_first_digit. lia.
Qed.

Lemma format_e_pos_exponent (x : Q) :
  list_get (str_split "e" (format_e_pos x)) 1 = Ok (format_exp (sci_exponent x)).
Proof.
  unfold format_e_pos, sci_exponent.
  destruct (sci_digits x) as [m e]. cbn [snd]. cbv zeta.
  change ("e" ++ format_exp e)%string with (String "e" (format_exp e)).
  rewrite <- !append_assoc.
  rewrite str_split_append.
  - rewrite str_split_none by apply format_exp_no_e. reflexivity.
  - rewrite !str_mem_append. unfold pad_to.
    rewrite zero_pad_no_e, py_str_int_no_e by apply py_str_int_no_e.
    reflexivity.
Qed.

(** For a positive [MIN_VAL] the start-up of [calc_valid_inputs] looks up
    the leading digit and enters the loop with the printed exponent. *)
Lemma calc_valid_inputs_positive (fuel : nat) (MIN MAX : Q) (M : list Z) :
  (0 < MIN)%Q ->
  calc_valid_inputs fuel MIN MAX M =
  (idx <- list_index M (leading_digit MIN) ;;
   calc_loop fuel M MAX idx (sci_exponent MIN) MIN).
Proof.
  intro Hx. unfold calc_valid_inputs.
  rewrite (format_e_positive MIN Hx), (format_e_pos_first MIN Hx).
  cbn [bind]. rewrite py_int_str. cbn [bind].
  destruct (list_index M (leading_digit MIN)); try reflexivity.
  cbn [bind]. rewrite format_e_pos_exponent. cbn [bind].
  rewrite py_int_format_exp. reflexivity.
Qed.

(** ** [list.index] *)

Lemma list_index_spec (M : list Z) (x : Z) :
  match list_index M x with
  | Ok i => (i < List.length M)%nat /\ nth i M 0 = x
  | Raise e => e = ValueError /\ ~ In x M
  | Timeout => False
  end.
Proof.
  induction M as [|y M IH]; cbn [list_index]; [auto|].
  destruct (Z.eqb_spec y x) as [->|Hne].
  - cbn. split; [lia|reflexivity].
  - destruct (list_index M x) as [i|e|]; cbn [bind].
    + destruct IH as [Hi Hn]. cbn. split; [lia|exact Hn].
    + destruct IH as [-> Hn]. split; [reflexivity|].
      intros [H|H]; [congruence|exact (Hn H)].
    + exact IH.
Qed.

Lemma list_index_absent (M : list Z) (x : Z) :
  ~ In x M -> list_index M x = Raise ValueError.
Proof.
  intro H. pose proof (list_index_spec M x) as S.
  destruct (list_index M x) as [i|e|]; [|destruct S; congruence|destruct S].
  exfalso. apply H. destruct S as [Hi <-]. apply nth_In. exact Hi.
Qed.

Lemma list_index_present (M : list Z) (x : Z) :
  In x M ->
  exists i, list_index M x = Ok i /\ (i < List.length M)%nat /\ nth i M 0 = x.
Proof.
  intro H. pose proof (list_index_spec M x) as S.
  destruct (list_index M x) as [i|e|]; [|destruct S; tauto|destruct S].
  exists i. tauto.
Qed.

(** ** Claims about rejected input *)

Lemma calc_valid_inputs_negative (fuel : nat) (MIN MAX : Q) (M : list Z) :
  (MIN < 0)%Q -> calc_valid_inputs fuel MIN MAX M = Raise ValueError.
Proof.
  intro H. unfold calc_valid_inputs, format_e.
  assert (E1 : Qeq_bool MIN 0 = false).
  { apply Qeq_bool_false_iff. intro E. rewrite E in H. discriminate H. }
  assert (E2 : Qlt_bool MIN 0 = true) by (apply Qlt_bool_iff; exact H).
  rewrite E1, E2. reflexivity.
Qed.

Lemma calc_valid_inputs_zero (fuel : nat) (MIN MAX : Q) (M : list Z) :
  (MIN == 0)%Q -> ~ In 0 M -> calc_valid_inputs fuel MIN MAX M = Raise ValueError.
Proof.
  intros H Hin. unfold calc_valid_inputs, format_e.
  apply Qeq_bool_iff in H. rewrite H. cbn [str_first bind].
  change (py_int "0") with (@Ok Z 0). cbn [bind].
  rewrite (list_index_absent M 0 Hin). reflexivity.
Qed.

Lemma calc_valid_inputs_digit_absent (fuel : nat) (MIN MAX : Q) (M : list Z) :
  (0 < MIN)%Q -> ~ In (leading_digit MIN) M ->
  calc_valid_inputs fuel MIN MAX M = Raise ValueError.
Proof.
  intros H Hin. rewrite (calc_valid_inputs_positive fuel MIN MAX M H).
  rewrite (list_index_absent M _ Hin). reflexivity.
Qed.

(** ** The empty sequence *)

(** C4 as stated fails: with [MIN = 2 > MAX = 1] the generated sequence is
    empty and [get_closest_value] returns 0 instead of raising. *)
Lemma get_closest_value_empty_no_error :
  calc_valid_inputs 1 2 1 [1; 2; 5] = Ok [] /\
  get_closest_value 1 3 2 1 [1; 2; 5] = Ok 0%Q /\
  ~ raises (get_closest_value 1 3 2 1 [1; 2; 5]).
Proof.
  split; [reflexivity|]. split; [reflexivity|].
  intros [e He]. discriminate He.
Qed.

(** C4 (amended): on an empty list [validate_input] raises [ValueError]
    for every target; [get_closest_value] has no check for an empty
    sequence: for a positive [MIN] above [MAX] whose leading digit as
    printed by ['{0:e}'] ([leading_digit], the first of the seven digits
    after rounding) is in the mantissas, the generated sequence is empty,
    and the call returns its initial [lowest_value], 0, without
    raising. *)
Theorem empty_sequence_behaviour (fuel : nat) (target MIN MAX : Q) (M : list Z)
    (Hmin : (0 < MIN)%Q) (Hgt : (MAX < MIN)%Q)
    (Hdigit : In (leading_digit MIN) M) :
  validate_input target [] = Raise ValueError /\
  calc_valid_inputs (S fuel) MIN MAX M = Ok [] /\
  get_closest_value (S fuel) target MIN MAX M = Ok 0%Q.
Proof.
  split; [reflexivity|].
  assert (Hempty : calc_valid_inputs (S fuel) MIN MAX M = Ok []).
  { rewrite (calc_valid_inputs_positive (S fuel) MIN MAX M Hmin).
    destruct (list_index_present M _ Hdigit) as (idx & -> & _).
    cbn [bind calc_loop].
    apply Qle_bool_false_iff in Hgt. rewrite Hgt. reflexivity. }
  split; [exact Hempty|].
  unfold get_closest_value. rewrite Hempty. reflexivity.
Qed.

Lemma empty_sequence_behaviour_witness :
  (0 < 2)%Q /\ (1 < 2)%Q /\ In (leading_digit 2) [1; 2; 5] /\
  validate_input 3 [] = Raise ValueError /\
  calc_valid_inputs 1 2 1 [1; 2; 5] = Ok [] /\
  get_closest_value 1 3 2 1 [1; 2; 5] = Ok 0%Q.
Proof.
  assert (H1 : (0 < 2)%Q) by reflexivity.
  assert (H2 : (1 < 2)%Q) by reflexivity.
  assert (H3 : In (leading_digit 2) [1; 2; 5]) by (right; left; reflexivity).
  split; [exact H1|]. split; [exact H2|]. split; [exact H3|].
  exact (empty_sequence_behaviour 0 3 2 1 [1; 2; 5] H1 H2 H3).
Defined.

(** ** One turn of the loop of [calc_valid_inputs] *)

Lemma next_idx_lt (M : list Z) (idx : nat) :
  M <> [] -> (next_idx M idx < List.length M)%nat.
Proof.
  intro H. unfold next_idx. apply Nat.mod_upper_bound.
  destruct M; [congruence|discriminate].
Qed.

(** With a non-empty mantissa list no step of the loop body fails, and the
    next value is the mantissa at the next index times the power of ten. *)
Lemma calc_loop_S (fuel : nat) (M : list Z) (MAX : Q) (idx : nat) (e : Z) (v : Q) :
  M <> [] ->
  calc_loop (S fuel) M MAX idx e v =
  if Qle_bool v MAX then
    rest <- calc_loop fuel M MAX (next_idx M idx) (next_exp M idx e)
              (step_value M (next_idx M idx) (next_exp M idx e)) ;;
    Ok (v :: rest)
  else Ok [].
Proof.
  intro HM. cbn [calc_loop]. destruct (Qle_bool v MAX); [|reflexivity].
  pose proof (next_idx_lt M idx HM) as Hlt.
  unfold next_exp, step_value. unfold next_idx in *.
  assert (Hmod : py_mod (idx + 1) (List.length M) =
                 Ok ((idx + 1) mod List.length M)%nat).
  { unfold py_mod. destruct M; [congruence|reflexivity]. }
  rewrite Hmod. cbn [bind]. unfold list_get.
  rewrite (nth_error_nth' M 0 Hlt). cbn [bind].
  rewrite py_float_literal. reflexivity.
Qed.

(** ** Which [MIN_VAL] the generator rejects *)

(** Once the start-up has found the digit, nothing in the loop raises. *)
Lemma calc_loop_no_raise (M : list Z) (MAX : Q) :
  M <> [] ->
  forall fuel idx e v, ~ raises (calc_loop fuel M MAX idx e v).
Proof.
  intro HM. induction fuel as [|fuel IH]; intros idx e v [x Hx].
  - discriminate Hx.
  - rewrite (calc_loop_S fuel M MAX idx e v HM) in Hx.
    destruct (Qle_bool v MAX); [|discriminate Hx].
    destruct (calc_loop fuel M MAX (next_idx M idx) (next_exp M idx e)
                (step_value M (next_idx M idx) (next_exp M idx e)))
      as [rest|x'|] eqn:E; cbn [bind] in Hx; try discriminate Hx.
    apply (IH (next_idx M idx) (next_exp M idx e)
              (step_value M (next_idx M idx) (next_exp M idx e))).
    exists x'. exact E.
Qed.

(** The leading significant digit of a positive number is unique. *)
Lemma significant_digit_unique (x : Q) (d1 d2 : Z) :
  significant_digit x d1 -> significant_digit x d2 -> d1 = d2.
Proof.
  intros [Hd1 (k1 & L1 & U1)] [Hd2 (k2 & L2 & U2)].
  assert (Hq : forall d : Z, 1 <= d <= 9 ->
                 (1 <= inject_Z d)%Q /\ (inject_Z (d + 1) <= 10)%Q).
  { intros d Hd. split.
    - change 1%Q with (inject_Z 1). rewrite <- Zle_Qle. lia.
    - change 10%Q with (inject_Z 10). rewrite <- Zle_Qle. lia. }
  destruct (Hq d1 Hd1) as [A1 B1]. destruct (Hq d2 Hd2) as [A2 B2].
  pose proof (pow10_pos k1) as P1. pose proof (pow10_pos k2) as P2.
  assert (Hk : k1 = k2).
  { destruct (Z.lt_trichotomy k1 k2) as [H|[H|H]]; [exfalso|exact H|exfalso].
    - pose proof (pow10_le (k1 + 1) k2 ltac:(lia)) as Hle.
      rewrite pow10_succ in Hle. nra.
    - pose proof (pow10_le (k2 + 1) k1 ltac:(lia)) as Hle.
      rewrite pow10_succ in Hle. nra. }
  subst k2.
  assert (H12 : (inject_Z d1 < inject_Z (d2 + 1))%Q) by nra.
  assert (H21 : (inject_Z d2 < inject_Z (d1 + 1))%Q) by nra.
  rewrite <- Zlt_Qlt in H12, H21. lia.
Qed.

(** C6 as stated fails: 9.9999999 has the leading significant digit 9,
    which is not in the mantissas (1, 2, 5), but ['{0:e}'] rounds it to
    seven digits and prints [1.000000e+01]; the digit 1 is found, nothing
    is raised and a sequence is produced.  The double nearest to the
    literal has the same digit and prints the same. *)
Lemma calc_valid_inputs_rounded_digit :
  (0 < 9.9999999)%Q /\
  significant_digit 9.9999999 9 /\
  (forall d, significant_digit 9.9999999 d -> ~ In d [1; 2; 5]) /\
  format_e 9.9999999 = "1.000000e+01" /\
  calc_valid_inputs 10 9.9999999 100 [1; 2; 5] =
    Ok [9.9999999; 20; 50; 100]%Q /\
  ~ raises (calc_valid_inputs 10 9.9999999 100 [1; 2; 5]) /\
  significant_digit (Binary64.round 9.9999999) 9 /\
  format_e (Binary64.round 9.9999999) = "1.000000e+01".
Proof.
  assert (H9 : significant_digit 9.9999999 9).
  { split; [lia|]. exists 0. split; [discriminate|reflexivity]. }
  split; [reflexivity|]. split; [exact H9|].
  split; [|split; [|split; [|split; [|split]]]].
  - intros d Hd. rewrite (significant_digit_unique _ _ _ Hd H9).
    cbn [In]. intuition discriminate.
  - vm_compute. reflexivity.
  - vm_compute. reflexivity.
  - intros [x Hx]. vm_compute in Hx. discriminate Hx.
  - split; [lia|]. exists 0. split; vm_compute; [discriminate|reflexivity].
  - vm_compute. reflexivity.
Qed.

(** C6 (amended): with positive mantissas, [calc_valid_inputs] raises
    [ValueError] and produces no sequence whenever [MIN_VAL <= 0], and
    whenever the leading digit that ['{0:e}'] prints for a positive
    [MIN_VAL] (the first of its seven significant digits after rounding)
    is not in the mantissa list; the error comes before the loop, whatever
    the fuel.  A positive [MIN_VAL] whose printed digit is in the list is
    never rejected, whatever its own leading digit. *)
Theorem calc_valid_inputs_rejects (fuel : nat) (MIN MAX : Q) (M : list Z)
    (Hpos : Forall (fun m => 0 < m) M) :
  ((MIN <= 0)%Q -> calc_valid_inputs fuel MIN MAX M = Raise ValueError) /\
  ((0 < MIN)%Q -> ~ In (leading_digit MIN) M ->
   calc_valid_inputs fuel MIN MAX M = Raise ValueError) /\
  ((0 < MIN)%Q -> In (leading_digit MIN) M ->
   ~ raises (calc_valid_inputs fuel MIN MAX M)).
Proof.
  split; [|split].
  - intro H. destruct (Qlt_le_dec MIN 0) as [Hlt|Hge].
    + apply calc_valid_inputs_negative. exact Hlt.
    + apply calc_valid_inputs_zero.
      * apply Qle_antisym; assumption.
      * intro Hin. rewrite Forall_forall in Hpos. specialize (Hpos 0 Hin). lia.
  - apply calc_valid_inputs_digit_absent.
  - intros Hmin Hin.
    rewrite (calc_valid_inputs_positive fuel MIN MAX M Hmin).
    destruct (list_index_present M _ Hin) as (idx & -> & Hlt & _).
    cbn [bind]. apply calc_loop_no_raise.
    intros ->. cbn in Hlt. lia.
Qed.

Lemma calc_valid_inputs_rejects_witness :
  Forall (fun m => 0 < m) [1; 2; 5] /\
  calc_valid_inputs 20 (-2) 10 [1; 2; 5] = Raise ValueError /\
  calc_valid_inputs 20 0 10 [1; 2; 5] = Raise ValueError /\
  calc_valid_inputs 20 3 10 [1; 2; 5] = Raise ValueError /\
  calc_valid_inputs 20 2.9999999 10 [1; 2; 5] = Raise ValueError /\
  ~ raises (calc_valid_inputs 20 9.9999999 100 [1; 2; 5]).
Proof.
  assert (Hpos : Forall (fun m => 0 < m) [1; 2; 5])
    by (repeat constructor).
  split; [exact Hpos|].
  split; [|split; [|split; [|split]]].
  - apply (proj1 (calc_valid_inputs_rejects 20 (-2) 10 [1; 2; 5] Hpos)).
    discriminate.
  - apply (proj1 (calc_valid_inputs_rejects 20 0 10 [1; 2; 5] Hpos)).
    discriminate.
  - apply (proj1 (proj2 (calc_valid_inputs_rejects 20 3 10 [1; 2; 5] Hpos))).
    + reflexivity.
    + vm_compute. intuition discriminate.
  - apply (proj1 (proj2 (calc_valid_inputs_rejects 20 2.9999999 10 [1; 2; 5] Hpos))).
    + reflexivity.
    + vm_compute. intuition discriminate.
  - apply (proj2 (proj2 (calc_valid_inputs_rejects 20 9.9999999 100 [1; 2; 5] Hpos))).
    + reflexivity.
    + vm_compute. left. reflexivity.
Defined.

(** ** Termination of the loop *)

Lemma step_value_ge_pow10 (M : list Z) (idx : nat) (e : Z) :
  Forall (fun m => 0 < m) M -> (idx < List.length M)%nat ->
  (pow10 e <= step_value M idx e)%Q.
Proof.
  intros Hpos Hidx. unfold step_value.
  rewrite Forall_forall in Hpos.
  assert (H1 : 1 <= nth idx M 0).
  { specialize (Hpos (nth idx M 0) (nth_In M 0 Hidx)). lia. }
  rewrite Zle_Qle in H1. change (inject_Z 1) with 1%Q in H1.
  pose proof (pow10_pos e) as Hp.
  setoid_replace (pow10 e) with (1 * pow10 e)%Q at 1 by ring.
  apply Qmult_le_compat_r; [exact H1|]. apply Qlt_le_weak. exact Hp.
Qed.

(** The number of loop tests still to come is bounded by the distance of
    the exponent to a power of ten above [MAX_VAL]. *)
Lemma calc_loop_terminates (M : list Z) (MAX : Q) (E : Z) :
  M <> [] -> Forall (fun m => 0 < m) M -> (MAX < pow10 E)%Q ->
  forall fuel idx e,
    (idx < List.length M)%nat ->
    (Z.to_nat (E - e) * List.length M + (List.length M - idx) <= fuel)%nat ->
    exists l, calc_loop fuel M MAX idx e (step_value M idx e) = Ok l.
Proof.
  intros HM Hpos HE.
  induction fuel as [|fuel IH]; intros idx e Hidx Hfuel.
  { exfalso. apply Nat.le_0_r in Hfuel. apply Nat.eq_add_0 in Hfuel. lia. }
  rewrite (calc_loop_S fuel M MAX idx e _ HM).
  destruct (Qle_bool (step_value M idx e) MAX) eqn:Ele; [|eexists; reflexivity].
  apply Qle_bool_iff in Ele.
  assert (He : e < E).
  { destruct (Z.lt_ge_cases e E) as [H|H]; [exact H|exfalso].
    pose proof (pow10_le E e H) as H1.
    pose proof (step_value_ge_pow10 M idx e Hpos Hidx) as H2. lra. }
  destruct (IH (next_idx M idx) (next_exp M idx e)) as [l Hl].
  - apply next_idx_lt. exact HM.
  - unfold next_exp, next_idx.
    destruct (Nat.eq_dec (idx + 1) (List.length M)) as [Ew|Ew].
    + rewrite Ew, Nat.Div0.mod_same. cbn [Nat.eqb].
      replace (Z.to_nat (E - e)) with (S (Z.to_nat (E - (e + 1)))) in Hfuel by lia.
      nia.
    + rewrite Nat.mod_small by lia.
      replace (idx + 1 =? 0)%nat with false by (symmetry; apply Nat.eqb_neq; lia).
      lia.
  - rewrite Hl. eexists. reflexivity.
Qed.

(** A power of ten above any [MAX_VAL]. *)
Lemma pow10_above (MAX : Q) : (MAX < pow10 (Z.max 0 (Qnum MAX)))%Q.
Proof.
  destruct MAX as [n d]. cbn [Qnum].
  unfold pow10. destruct (Z.leb_spec 0 (Z.max 0 n)) as [_|]; [|lia].
  unfold Qlt. cbn [Qnum Qden inject_Z].
  pose proof (Z.pow_gt_lin_r 10 (Z.max 0 n) ltac:(lia) ltac:(lia)) as H.
  nia.
Qed.

(** ** Sorted mantissa lists *)

Lemma Sorted_nth_succ (M : list Z) :
  Sorted Z.lt M ->
  forall i, (S i < List.length M)%nat -> nth i M 0 < nth (S i) M 0.
Proof.
  induction 1 as [|a l Hs IH Hhd]; intros i Hi; [cbn in Hi; lia|].
  destruct i as [|i].
  - destruct Hhd as [|b l' Hab]; [cbn in Hi; lia|]. exact Hab.
  - cbn [List.length] in Hi. apply (IH i). lia.
Qed.

Lemma Sorted_nth_le (M : list Z) :
  Sorted Z.lt M ->
  forall j i, (i <= j)%nat -> (j < List.length M)%nat -> nth i M 0 <= nth j M 0.
Proof.
  intro Hs. induction j as [|j IH]; intros i Hij Hj.
  - replace i with 0%nat by lia. lia.
  - destruct (Nat.eq_dec i (S j)) as [->|Hne]; [lia|].
    pose proof (Sorted_nth_succ M Hs j Hj).
    specialize (IH i ltac:(lia) ltac:(lia)). lia.
Qed.

Lemma hd_nth (M : list Z) : hd 0 M = nth 0 M 0.
Proof. destruct M; reflexivity. Qed.

Lemma last_nth_pred (M : list Z) : last M 0 = nth (List.length M - 1) M 0.
Proof.
  induction M as [|a [|b l] IH]; try reflexivity.
  change (last (a :: b :: l) 0) with (last (b :: l) 0). rewrite IH.
  cbn [List.length]. replace (S (S (List.length l)) - 1)%nat
    with (S (S (List.length l) - 1)) by lia.
  reflexivity.
Qed.

Lemma ascending_positive (M : list Z) :
  ascending_mantissas M -> Forall (fun m => 0 < m) M.
Proof.
  intros [Hs Hhd]. apply Forall_forall. intros m Hm.
  destruct (In_nth M m 0 Hm) as (j & Hj & <-).
  pose proof (Sorted_nth_le M Hs j 0%nat ltac:(lia) Hj).
  rewrite hd_nth in Hhd. lia.
Qed.

(** ** The next value lies above *)

Lemma next_state_cases (M : list Z) (idx : nat) (e : Z) :
  (idx < List.length M)%nat ->
  ((S idx < List.length M)%nat /\
   next_idx M idx = S idx /\ next_exp M idx e = e) \/
  (S idx = List.length M /\
   next_idx M idx = 0%nat /\ next_exp M idx e = e + 1).
Proof.
  intro Hidx. unfold next_exp, next_idx.
  destruct (Nat.eq_dec (idx + 1) (List.length M)) as [Ew|Ew].
  - right. rewrite Ew, Nat.Div0.mod_same. cbn [Nat.eqb]. repeat split. lia.
  - left. rewrite Nat.mod_small by lia.
    replace (idx + 1 =? 0)%nat with false by (symmetry; apply Nat.eqb_neq; lia).
    repeat split; lia.
Qed.

Lemma Qmult_inject_le (a b : Z) (p : Q) :
  a <= b -> (0 < p)%Q -> (inject_Z a * p <= inject_Z b * p)%Q.
Proof.
  intros H Hp. apply Qmult_le_compat_r; [|apply Qlt_le_weak; exact Hp].
  rewrite <- Zle_Qle. exact H.
Qed.

Lemma Qmult_inject_lt (a b : Z) (p : Q) :
  a < b -> (0 < p)%Q -> (inject_Z a * p < inject_Z b * p)%Q.
Proof.
  intros H Hp. apply Qmult_lt_compat_r; [exact Hp|].
  rewrite <- Zlt_Qlt. exact H.
Qed.

Lemma step_value_wrap (M : list Z) (e : Z) (c : Z) :
  c <= 10 * hd 0 M ->
  (inject_Z c * pow10 e <= step_value M 0 (e + 1))%Q.
Proof.
  intro H. unfold step_value. rewrite <- hd_nth, pow10_succ.
  pose proof (Qmult_inject_le c (10 * hd 0 M) (pow10 e) H (pow10_pos e)) as H1.
  rewrite inject_Z_mult in H1. change (inject_Z 10) with 10%Q in H1.
  pose proof (pow10_pos e). lra.
Qed.

(** Any bound [(d + 1) * 10^e] just above the current mantissa [d] is
    reached by the next value, when the mantissas ascend strictly and a
    wrap does not fall below [d + 1]. *)
Lemma next_value_above (M : list Z) (idx : nat) (e : Z) :
  Sorted Z.lt M -> (idx < List.length M)%nat ->
  nth idx M 0 + 1 <= 10 * hd 0 M ->
  (inject_Z (nth idx M 0 + 1)%Z * pow10 e <=
   step_value M (next_idx M idx) (next_exp M idx e))%Q.
Proof.
  intros Hs Hidx Hwrap.
  destruct (next_state_cases M idx e Hidx) as [(Hlt & -> & ->)|(Heq & -> & ->)].
  - unfold step_value. apply Qmult_inject_le; [|apply pow10_pos].
    pose proof (Sorted_nth_succ M Hs idx Hlt). lia.
  - apply step_value_wrap. exact Hwrap.
Qed.

Lemma step_value_lt_next (M : list Z) (idx : nat) (e : Z) :
  decade_mantissas M -> (idx < List.length M)%nat ->
  (step_value M idx e < step_value M (next_idx M idx) (next_exp M idx e))%Q.
Proof.
  intros [[Hs Hhd] [HM Hlast]] Hidx.
  eapply Qlt_le_trans; [|apply next_value_above; try assumption].
  - unfold step_value. apply Qmult_inject_lt; [lia|apply pow10_pos].
  - rewrite last_nth_pred in Hlast.
    pose proof (Sorted_nth_le M Hs (List.length M - 1) idx ltac:(lia) ltac:(lia)).
    lia.
Qed.

(** ** The list the loop builds *)

Lemma step_value_literal (M : list Z) (idx : nat) (e : Z) :
  (idx < List.length M)%nat -> mantissa_literal M (step_value M idx e).
Proof.
  intro Hidx. exists (nth idx M 0), e. split; [apply nth_In; exact Hidx|].
  split; [apply py_float_literal|reflexivity].
Qed.

(** The list starts with the value the loop was entered with, stays at or
    below [MAX_VAL], and everything after its head is a mantissa literal. *)
Lemma calc_loop_members (M : list Z) (MAX : Q) :
  M <> [] ->
  forall fuel idx e v l,
    calc_loop fuel M MAX idx e v = Ok l ->
    (l = [] \/ exists rest, l = v :: rest) /\
    Forall (fun w => (w <= MAX)%Q) l /\
    Forall (mantissa_literal M) (tl l).
Proof.
  intro HM. induction fuel as [|fuel IH]; intros idx e v l H; [discriminate|].
  rewrite (calc_loop_S fuel M MAX idx e v HM) in H.
  destruct (Qle_bool v MAX) eqn:Ele.
  - apply Qle_bool_iff in Ele.
    apply bind_Ok in H. destruct H as (rest & Hrest & [= <-]).
    destruct (IH _ _ _ _ Hrest) as (Hshape & Hmax & Hlit).
    split; [right; eexists; reflexivity|].
    split; [constructor; assumption|].
    cbn [tl]. destruct Hshape as [->|(rest' & ->)]; [constructor|].
    constructor; [|exact Hlit].
    apply step_value_literal, next_idx_lt, HM.
  - injection H as <-. split; [left; reflexivity|]. split; constructor.
Qed.

(** With mantissas that ascend within one decade the list ascends
    strictly, provided the first value lies below the second. *)
Lemma calc_loop_sorted (M : list Z) (MAX : Q) :
  decade_mantissas M ->
  forall fuel idx e v l,
    (v < step_value M (next_idx M idx) (next_exp M idx e))%Q ->
    calc_loop fuel M MAX idx e v = Ok l ->
    Sorted Qlt l.
Proof.
  intro Hd. assert (HM : M <> []) by apply Hd.
  induction fuel as [|fuel IH]; intros idx e v l Hv H; [discriminate|].
  rewrite (calc_loop_S fuel M MAX idx e v HM) in H.
  destruct (Qle_bool v MAX); [|injection H as <-; constructor].
  apply bind_Ok in H. destruct H as (rest & Hrest & [= <-]).
  constructor.
  - apply (IH _ _ _ _ (step_value_lt_next M _ _ Hd (next_idx_lt M idx HM)) Hrest).
  - destruct (calc_loop_members M MAX HM _ _ _ _ _ Hrest)
      as ([->|(rest' & ->)] & _); constructor. exact Hv.
Qed.

Lemma step_value_grows (M : list Z) :
  0 < hd 0 M ->
  forall e, (step_value M 0 e <= step_value M 0 (e + 1))%Q.
Proof.
  intros Hhd e. unfold step_value. rewrite pow10_succ.
  rewrite hd_nth in Hhd. rewrite Zlt_Qlt in Hhd.
  change (inject_Z 0) with 0%Q in Hhd.
  pose proof (Qmult_lt_0_compat _ _ Hhd (pow10_pos e)). lra.
Qed.

(** With strictly ascending positive mantissas every value the loop
    computes stays above a bound that the current state and the start of
    the next decade both respect. *)
Lemma calc_loop_lower (M : list Z) (MAX B : Q) :
  ascending_mantissas M -> M <> [] ->
  forall fuel idx e l,
    (idx < List.length M)%nat ->
    (B <= step_value M idx e)%Q ->
    (B <= step_value M 0 (e + 1))%Q ->
    calc_loop fuel M MAX idx e (step_value M idx e) = Ok l ->
    Forall (fun w => (B <= w)%Q) l.
Proof.
  intros [Hs Hhd] HM.
  pose proof (step_value_grows M Hhd) as Hgrow.
  induction fuel as [|fuel IH]; intros idx e l Hidx Hcur Hnext H; [discriminate|].
  rewrite (calc_loop_S fuel M MAX idx e _ HM) in H.
  destruct (Qle_bool (step_value M idx e) MAX); [|injection H as <-; constructor].
  apply bind_Ok in H. destruct H as (rest & Hrest & [= <-]).
  constructor; [exact Hcur|].
  revert Hrest.
  destruct (next_state_cases M idx e Hidx) as [(Hlt & -> & ->)|(Heq & -> & ->)];
    intro Hrest.
  - apply (IH (S idx) e); [exact Hlt| |exact Hnext|exact Hrest].
    eapply Qle_trans; [exact Hcur|]. unfold step_value.
    apply Qmult_inject_le; [|apply pow10_pos].
    apply (Sorted_nth_le M Hs); lia.
  - apply (IH 0%nat (e + 1)); [lia|exact Hnext| |exact Hrest].
    eapply Qle_trans; [exact Hnext|apply Hgrow].
Qed.

(** ** Generated sequences *)

(** A generated sequence is empty or starts with a positive [MIN_VAL]
    that lies strictly below everything after it. *)
Lemma calc_valid_inputs_head_least (fuel : nat) (MIN MAX : Q) (M : list Z)
    (seq : list Q) :
  ascending_mantissas M ->
  calc_valid_inputs fuel MIN MAX M = Ok seq ->
  seq = [] \/
  exists t, seq = MIN :: t /\ (0 < MIN)%Q /\ forall w, In w t -> (MIN < w)%Q.
Proof.
  intros HA H. pose proof (ascending_positive M HA) as Hpos.
  destruct HA as [Hs Hhd].
  destruct (Qlt_le_dec 0 MIN) as [Hmin|Hmin].
  2:{ destruct (Qlt_le_dec MIN 0) as [Hlt|Hge].
      - rewrite calc_valid_inputs_negative in H by exact Hlt. discriminate.
      - rewrite calc_valid_inputs_zero in H; [discriminate| |].
        + apply Qle_antisym; assumption.
        + intro Hin. rewrite Forall_forall in Hpos.
          specialize (Hpos 0 Hin). lia. }
  rewrite (calc_valid_inputs_positive fuel MIN MAX M Hmin) in H.
  apply bind_Ok in H. destruct H as (idx & Hidx & H).
  pose proof (list_index_spec M (leading_digit MIN)) as Hspec.
  rewrite Hidx in Hspec. destruct Hspec as [Hlt Hnth].
  assert (HM : M <> []) by (intros ->; cbn in Hlt; lia).
  destruct fuel as [|fuel]; [discriminate|].
  rewrite (calc_loop_S fuel M MAX idx _ MIN HM) in H.
  destruct (Qle_bool MIN MAX); [|injection H as <-; left; reflexivity].
  apply bind_Ok in H. destruct H as (rest & Hrest & [= <-]).
  right. exists rest. split; [reflexivity|]. split; [exact Hmin|].
  destruct (sci_digits_spec MIN Hmin) as [_ Hbelow].
  pose proof (leading_digit_range MIN Hmin) as Hrange.
  set (e0 := sci_exponent MIN) in *.
  set (B := (inject_Z (leading_digit MIN + 1) * pow10 e0)%Q) in *.
  assert (Hwrap : leading_digit MIN + 1 <= 10 * hd 0 M) by lia.
  assert (HB : Forall (fun w => (B <= w)%Q) rest).
  { apply (calc_loop_lower M MAX B (conj Hs Hhd) HM fuel
             (next_idx M idx) (next_exp M idx e0) rest
             (next_idx_lt M idx HM)); [| |exact Hrest].
    - unfold B. rewrite <- Hnth. apply next_value_above; try assumption.
      rewrite Hnth. exact Hwrap.
    - pose proof (step_value_wrap M e0 _ Hwrap) as Hw. fold B in Hw.
      destruct (next_state_cases M idx e0 Hlt) as [(_ & _ & ->)|(_ & _ & ->)].
      + exact Hw.
      + eapply Qle_trans; [exact Hw|]. apply step_value_grows. exact Hhd. }
  rewrite Forall_forall in HB. intros w Hw.
  eapply Qlt_le_trans; [exact Hbelow|]. apply HB. exact Hw.
Qed.

(** On a list whose head is positive and least, resolving twice is
    resolving once. *)
Lemma resolve_idempotent_list (x : Q) (seq : list Q) :
  seq = [] \/
  (exists h t, seq = h :: t /\ (0 < h)%Q /\ forall w, In w t -> (h < w)%Q) ->
  (resolve (resolve x seq) seq == resolve x seq)%Q.
Proof.
  intros [->|(h & t & -> & Hh & Ht)]; [reflexivity|].
  destruct (closest_loop_result x (h :: t) false 0 0) as [H0|Hin];
    fold (resolve x (h :: t)) in *.
  - rewrite H0. rewrite resolve_cons.
    assert (Habs : forall w, (0 < w)%Q -> (Qabs (w - 0) == w)%Q).
    { intros w Hw. rewrite Qabs_pos by lra. ring. }
    assert (E : Qeq_bool (Qabs (h - 0)) 0 = false).
    { apply Qeq_bool_false_iff. rewrite (Habs h Hh). lra. }
    rewrite E.
    destruct (closest_loop_keeps 0 t (Qabs (h - 0)) 0) as [->|Heq];
      [|reflexivity|exact Heq].
    intros w Hw. specialize (Ht w Hw).
    rewrite (Habs h Hh), (Habs w) by lra. lra.
  - apply closest_loop_exact. exists (resolve x (h :: t)).
    split; [exact Hin|reflexivity].
Qed.

(** C9: with strictly ascending positive mantissas, resolving a resolved
    value against the same generated sequence gives the same value, and a
    target equal to a member of the sequence resolves to that member. *)
Theorem get_closest_value_idempotent (fuel : nat) (x MIN MAX : Q) (M : list Z)
    (r : Q)
    (HM : ascending_mantissas M)
    (Hr : get_closest_value fuel x MIN MAX M = Ok r) :
  (exists r', get_closest_value fuel r MIN MAX M = Ok r' /\ (r' == r)%Q) /\
  (forall seq v,
     calc_valid_inputs fuel MIN MAX M = Ok seq ->
     In v seq -> (v == x)%Q -> (r == v)%Q).
Proof.
  unfold get_closest_value in *.
  apply bind_Ok in Hr. destruct Hr as (seq & Hseq & [= <-]).
  rewrite Hseq. cbn [bind]. split.
  - eexists. split; [reflexivity|].
    apply resolve_idempotent_list.
    destruct (calc_valid_inputs_head_least fuel MIN MAX M seq HM Hseq)
      as [->|(t & -> & Hh & Ht)]; [left; reflexivity|].
    right. exists MIN, t. auto.
  - intros seq' v [= <-] Hin Hv. rewrite Hv.
    apply closest_loop_exact. exists v. auto.
Qed.

Lemma get_closest_value_idempotent_witness :
  ascending_mantissas [1; 2; 5] /\
  get_closest_value 20 0.25 0.002 10 [1; 2; 5] = Ok 0.2%Q /\
  (exists r', get_closest_value 20 0.2 0.002 10 [1; 2; 5] = Ok r' /\
              (r' == 0.2)%Q) /\
  (forall seq v,
     calc_valid_inputs 20 0.002 10 [1; 2; 5] = Ok seq ->
     In v seq -> (v == 0.25)%Q -> (0.2 == v)%Q).
Proof.
  assert (HM : ascending_mantissas [1; 2; 5]).
  { split; [repeat constructor|reflexivity]. }
  split; [exact HM|]. split; [reflexivity|].
  apply (get_closest_value_idempotent 20 0.25 0.002 10 [1; 2; 5] 0.2 HM).
  reflexivity.
Defined.

(** C2 as stated fails.  With the mantissas [1, 3, 10] the sequence for
    the range 1..100 repeats 10 and 100, so it is not strictly ascending;
    and for [MIN_VAL = 2.5] with the mantissas [1, 2, 5] the first element
    2.5 is no mantissa times a power of ten.  In both cases the mantissas
    are sorted and hold the leading digit of [MIN_VAL]. *)
Lemma calc_valid_inputs_not_as_claimed :
  (Sorted Z.lt [1; 3; 10] /\ In (leading_digit 1) [1; 3; 10] /\
   calc_valid_inputs 10 1 100 [1; 3; 10] = Ok [1; 3; 10; 10; 30; 100; 100]%Q /\
   ~ Sorted Qlt [1; 3; 10; 10; 30; 100; 100]%Q) /\
  (Sorted Z.lt [1; 2; 5] /\ In (leading_digit 2.5) [1; 2; 5] /\
   calc_valid_inputs 10 2.5 10 [1; 2; 5] = Ok [2.5; 5; 10]%Q /\
   ~ exists m k, In m [1; 2; 5] /\ (2.5 == inject_Z m * pow10 k)%Q).
Proof.
  split; (split; [repeat constructor|]).
  - split; [left; reflexivity|]. split; [reflexivity|].
    intro H.
    do 2 (apply Sorted_inv in H; destruct H as [H _]).
    apply Sorted_inv in H. destruct H as [_ H].
    apply HdRel_inv in H. exact (Qlt_irrefl _ H).
  - split; [right; left; reflexivity|]. split; [reflexivity|].
    intros (m & k & Hm & Hk).
    assert (Hcases : k <= -1 \/ k = 0 \/ 1 <= k) by lia.
    pose proof (pow10_pos k) as Hp.
    destruct Hcases as [Hk1|[->|Hk1]].
    + pose proof (pow10_le k (-1) Hk1) as Hle.
      change (pow10 (-1)) with (1 # 10)%Q in Hle.
      simpl in Hm.
      destruct Hm as [<-|[<-|[<-|[]]]];
        match type of Hk with context [inject_Z ?z] =>
          change (inject_Z z) with (z # 1)%Q in Hk end; lra.
    + change (pow10 0) with 1%Q in Hk. simpl in Hm.
      destruct Hm as [<-|[<-|[<-|[]]]]; discriminate Hk.
    + pose proof (pow10_le 1 k Hk1) as Hle.
      change (pow10 1) with 10%Q in Hle.
      simpl in Hm.
      destruct Hm as [<-|[<-|[<-|[]]]];
        match type of Hk with context [inject_Z ?z] =>
          change (inject_Z z) with (z # 1)%Q in Hk end; lra.
Qed.

(** C2 (amended): for [0 < MIN_VAL <= MAX_VAL] and mantissas that ascend
    strictly, are positive, stay within one decade (last < 10 * first) and
    hold the leading digit of [MIN_VAL] as ['{0:e}'] prints it
    ([leading_digit]), every run with enough fuel returns
    the same sequence: it starts with [MIN_VAL], ascends strictly, stays at
    or below [MAX_VAL], and every element after the first is the float of
    a literal ["<mantissa>e<exponent>"], equal to mantissa * 10^exponent. *)
Theorem calc_valid_inputs_ascending (MIN MAX : Q) (M : list Z)
    (Hmin : (0 < MIN)%Q) (Hle : (MIN <= MAX)%Q)
    (HM : decade_mantissas M) (Hdigit : In (leading_digit MIN) M) :
  exists fuel0 rest,
    (forall fuel, (fuel0 <= fuel)%nat ->
       calc_valid_inputs fuel MIN MAX M = Ok (MIN :: rest)) /\
    StronglySorted Qlt (MIN :: rest) /\
    Forall (fun w => (w <= MAX)%Q) (MIN :: rest) /\
    Forall (mantissa_literal M) rest.
Proof.
  destruct (list_index_present M _ Hdigit) as (idx & Hidx & Hlt & Hnth).
  assert (HM' : M <> []) by apply HM.
  pose proof (proj1 HM) as HA. pose proof (ascending_positive M HA) as Hpos.
  set (e0 := sci_exponent MIN).
  set (E := Z.max 0 (Qnum MAX)).
  set (fuel1 := (Z.to_nat (E - next_exp M idx e0) * List.length M +
                 (List.length M - next_idx M idx))%nat).
  destruct (calc_loop_terminates M MAX E HM' Hpos (pow10_above MAX) fuel1
              (next_idx M idx) (next_exp M idx e0) (next_idx_lt M idx HM')
              (Nat.le_refl _)) as [rest Hrest].
  assert (Hrun : calc_loop (S fuel1) M MAX idx e0 MIN = Ok (MIN :: rest)).
  { rewrite (calc_loop_S fuel1 M MAX idx e0 MIN HM').
    apply Qle_bool_iff in Hle. rewrite Hle, Hrest. reflexivity. }
  exists (S fuel1), rest. split; [|split].
  - intros fuel Hfuel. rewrite (calc_valid_inputs_positive fuel MIN MAX M Hmin).
    rewrite Hidx. cbn [bind].
    apply (calc_loop_fuel_mono M MAX _ _ _ _ _ Hrun fuel Hfuel).
  - apply Sorted_StronglySorted; [exact Qlt_trans|].
    apply (calc_loop_sorted M MAX HM (S fuel1) idx e0 MIN); [|exact Hrun].
    destruct (sci_digits_spec MIN Hmin) as [_ Hbelow].
    eapply Qlt_le_trans; [exact Hbelow|]. fold e0. rewrite <- Hnth.
    destruct HM as [[Hs Hhd] [_ Hlast]].
    apply next_value_above; try assumption.
    rewrite last_nth_pred in Hlast.
    pose proof (Sorted_nth_le M Hs (List.length M - 1) idx ltac:(lia) ltac:(lia)).
    lia.
  - destruct (calc_loop_members M MAX HM' _ _ _ _ _ Hrun) as (_ & Hmax & Hlit).
    split; assumption.
Qed.

Lemma calc_valid_inputs_ascending_witness :
  (0 < 0.002)%Q /\ (0.002 <= 10)%Q /\ decade_mantissas [1; 2; 5] /\
  In (leading_digit 0.002) [1; 2; 5] /\
  exists fuel0 rest,
    (forall fuel, (fuel0 <= fuel)%nat ->
       calc_valid_inputs fuel 0.002 10 [1; 2; 5] = Ok (0.002%Q :: rest)) /\
    StronglySorted Qlt (0.002%Q :: rest) /\
    Forall (fun w => (w <= 10)%Q) (0.002%Q :: rest) /\
    Forall (mantissa_literal [1; 2; 5]) rest.
Proof.
  assert (H1 : (0 < 0.002)%Q) by reflexivity.
  assert (H2 : (0.002 <= 10)%Q) by discriminate.
  assert (H3 : decade_mantissas [1; 2; 5]).
  { repeat split; try discriminate; repeat constructor. }
  assert (H4 : In (leading_digit 0.002) [1; 2; 5]) by (right; left; reflexivity).
  split; [exact H1|]. split; [exact H2|]. split; [exact H3|]. split; [exact H4|].
  exact (calc_valid_inputs_ascending 0.002 10 [1; 2; 5] H1 H2 H3 H4).
Defined.

(** ** The two resolvers compared *)

Lemma min_from_stays (key : Q -> Q) :
  forall l best,
    existsb (fun w => Qlt_bool (key w) (key best)) l = false ->
    min_from key best l = best.
Proof.
  induction l as [|v l IH]; intros best H; [reflexivity|].
  cbn [existsb min_from] in *. apply orb_false_iff in H.
  destruct H as [Hv Hl]. rewrite Hv. apply IH. exact Hl.
Qed.

Lemma existsb_below_zero (x d : Q) (l : list Q) :
  (d == 0)%Q ->
  existsb (fun w => Qlt_bool (Qabs (w - x)) d) l = false.
Proof.
  intro Hd. induction l as [|w l IH]; [reflexivity|].
  cbn [existsb]. rewrite IH, orb_false_r.
  apply Qlt_bool_false_iff. rewrite Hd. apply Qabs_nonneg.
Qed.

(** After the first iteration the loop tracks [min]'s running best, except
    that [lowest_value] is only written on a strict improvement. *)
Lemma closest_loop_tracks_min (x : Q) :
  forall l best lv,
    ~ (Qabs (best - x) == 0)%Q ->
    closest_loop x l true (Qabs (best - x)) lv =
    if existsb (fun w => Qlt_bool (Qabs (w - x)) (Qabs (best - x))) l
    then min_from (fun w => Qabs (w - x)) best l
    else lv.
Proof.
  induction l as [|v l IH]; intros best lv Hbest; [reflexivity|].
  rewrite closest_loop_cons. cbv zeta. cbn [negb existsb min_from].
  destruct (Qlt_bool (Qabs (v - x)) (Qabs (best - x))) eqn:Elt.
  - cbn [orb]. destruct (Qeq_bool (Qabs (v - x)) 0) eqn:Ez.
    + apply Qeq_bool_iff in Ez. symmetry. apply min_from_stays.
      apply existsb_below_zero. exact Ez.
    + apply Qeq_bool_false_iff in Ez. rewrite (IH v v Ez).
      destruct (existsb _ l) eqn:Ex; [reflexivity|].
      symmetry. apply min_from_stays. exact Ex.
  - cbn [orb]. destruct (Qeq_bool (Qabs (v - x)) 0) eqn:Ez.
    + exfalso. apply Hbest. apply Qeq_bool_iff in Ez.
      apply Qlt_bool_false_iff in Elt. rewrite Ez in Elt.
      apply Qle_antisym; [exact Elt|apply Qabs_nonneg].
    + apply IH. exact Hbest.
Qed.

(** X1: [get_closest_value]'s loop against [validate_input].  On a
    non-empty sequence the loop returns what [validate_input] returns, the
    first member nearest to the target, except when that member is the
    first of the sequence and differs from the target: then it returns its
    initial [lowest_value], 0. *)
Theorem resolve_against_validate_input (x h : Q) (t : list Q) :
  let key := fun w => Qabs (w - x) in
  validate_input x (h :: t) = Ok (min_from key h t) /\
  resolve x (h :: t) =
    if Qeq_bool (key h) 0 then h
    else if existsb (fun w => Qlt_bool (key w) (key h)) t
         then min_from key h t
         else 0%Q.
Proof.
  intro key. split; [reflexivity|].
  rewrite resolve_cons. unfold key.
  destruct (Qeq_bool (Qabs (h - x)) 0) eqn:Ez; [reflexivity|].
  apply closest_loop_tracks_min. apply Qeq_bool_false_iff. exact Ez.
Qed.

(** X2: the two branches of [get_val_ceil] that return: a target at or
    below the validated value, and a target above the largest valid value,
    both give back the validated value. *)
Theorem get_val_ceil_returns_validated (target validated : Q)
    (vals_valid : list Q) (m : Q)
    (Hmax : py_max vals_valid = Ok m) :
  ((target <= validated)%Q ->
   get_val_ceil target validated vals_valid = Ok (Some validated)) /\
  ((validated < target)%Q -> (m < target)%Q ->
   get_val_ceil target validated vals_valid = Ok (Some validated)).
Proof.
  unfold get_val_ceil. split.
  - intro H. apply Qle_bool_iff in H. rewrite H. reflexivity.
  - intros H1 H2.
    assert (E1 : Qle_bool target validated = false)
      by (apply Qle_bool_false_iff; exact H1).
    apply Qlt_bool_iff in H1. apply Qlt_bool_iff in H2.
    rewrite E1, H1, Hmax. cbn [bind]. rewrite H2. reflexivity.
Qed.

Lemma get_val_ceil_returns_validated_witness :
  py_max [1; 2; 5; 10; 20; 50]%Q = Ok 50%Q /\
  get_val_ceil 9 10 [1; 2; 5; 10; 20; 50]%Q = Ok (Some 10%Q) /\
  get_val_ceil 60 50 [1; 2; 5; 10; 20; 50]%Q = Ok (Some 50%Q).
Proof.
  assert (Hmax : py_max [1; 2; 5; 10; 20; 50]%Q = Ok 50%Q) by reflexivity.
  split; [exact Hmax|]. split.
  - apply (proj1 (get_val_ceil_returns_validated 9 10 _ 50 Hmax)). discriminate.
  - apply (proj2 (get_val_ceil_returns_validated 60 50 _ 50 Hmax)); reflexivity.
Defined.

(** * More of the code *)

(** ** [support.py]: bytes to integers *)

Lemma testbit_above (b k n : Z) :
  0 <= b < 2 ^ k -> k <= n -> Z.testbit b n = false.
Proof.
  intros [Hb0 Hbk] Hn.
  destruct (Z.eq_dec b 0) as [->|Hne]; [apply Z.bits_0|].
  apply Z.bits_above_log2; [exact Hb0|].
  assert (Z.log2 b < k) by (apply Z.log2_lt_pow2; lia). lia.
Qed.

(** Or-ing a value below [2^k] into a value shifted left by [k] adds it. *)
Lemma lor_shiftl_add (a b k : Z) :
  0 <= k -> 0 <= b < 2 ^ k -> Z.lor (Z.shiftl a k) b = a * 2 ^ k + b.
Proof.
  intros Hk Hb.
  assert (Hland : Z.land (Z.shiftl a k) b = 0).
  { apply Z.bits_inj'. intros n Hn. rewrite Z.land_spec, Z.bits_0.
    destruct (Z.lt_ge_cases n k) as [Hlt|Hge].
    - rewrite Z.shiftl_spec_low by exact Hlt. reflexivity.
    - rewrite (testbit_above b k n Hb Hge). apply andb_false_r. }
  rewrite <- (Z.lxor_lor _ _ Hland), <- (Z.add_nocarry_lxor _ _ Hland).
  rewrite Z.shiftl_mul_pow2 by exact Hk. reflexivity.
Qed.

Lemma lor_bytes_4 (b0 b1 b2 b3 : Z) :
  is_u8 b1 -> is_u8 b2 -> is_u8 b3 ->
  Z.lor (Z.lor (Z.lor (Z.shiftl b0 24) (Z.shiftl b1 16)) (Z.shiftl b2 8)) b3 =
  ((b0 * 256 + b1) * 256 + b2) * 256 + b3.
Proof.
  unfold is_u8. intros H1 H2 H3.
  replace (Z.shiftl b0 24) with (Z.shiftl (Z.shiftl b0 8) 16)
    by (rewrite Z.shiftl_shiftl by lia; reflexivity).
  rewrite <- Z.shiftl_lor.
  rewrite (lor_shiftl_add b0 b1 8) by (change (2 ^ 8) with 256; lia).
  change (2 ^ 8) with 256.
  replace (Z.shiftl (b0 * 256 + b1) 16)
    with (Z.shiftl (Z.shiftl (b0 * 256 + b1) 8) 8)
    by (rewrite Z.shiftl_shiftl by lia; reflexivity).
  rewrite <- Z.shiftl_lor.
  rewrite (lor_shiftl_add (b0 * 256 + b1) b2 8) by (change (2 ^ 8) with 256; lia).
  change (2 ^ 8) with 256.
  rewrite (lor_shiftl_add _ b3 8) by (change (2 ^ 8) with 256; lia).
  reflexivity.
Qed.

Lemma heap_set_same (h : heap) (a : addr) (l : list Z) : heap_set h a l a = l.
Proof. unfold heap_set. rewrite Nat.eqb_refl. reflexivity. Qed.

Lemma heap_set_other (h : heap) (a a' : addr) (l : list Z) :
  a' <> a -> heap_set h a l a' = h a'.
Proof.
  intro H. unfold heap_set. apply Nat.eqb_neq in H. rewrite H. reflexivity.
Qed.

(** The value and the heap of a call, in terms of the list before it. *)
Lemma convert_list_to_int_eq (r : addr) (h : heap) :
  convert_list_to_int r h =
  (match rev (h r) with
   | [b0; b1; b2; b3] =>
       Ok (Some (Z.lor (Z.lor (Z.lor (Z.shiftl b0 24) (Z.shiftl b1 16))
                          (Z.shiftl b2 8)) b3))
   | [b0; b1] => Ok (Some (Z.lor (Z.shiftl b0 8) b1))
   | _ => Ok None
   end,
   heap_set h r (rev (h r))).
Proof.
  unfold convert_list_to_int, invert_endian. rewrite heap_set_same.
  destruct (rev (h r)) as [|b0 [|b1 [|b2 [|b3 [|b4 l]]]]]; reflexivity.
Qed.

(** X3: [convert_list_to_int] reads a list of four bytes as a
    little-endian unsigned 32-bit integer and a list of two bytes as a
    little-endian unsigned 16-bit integer; the values lie below [2^32] and
    [2^16]. *)
Theorem convert_list_to_int_little_endian (h : heap) (r : addr)
    (b0 b1 b2 b3 : Z)
    (H0 : is_u8 b0) (H1 : is_u8 b1) (H2 : is_u8 b2) (H3 : is_u8 b3) :
  fst (convert_list_to_int r (heap_set h r [b0; b1; b2; b3])) =
    Ok (Some (b0 + 256 * b1 + 65536 * b2 + 16777216 * b3)) /\
  0 <= b0 + 256 * b1 + 65536 * b2 + 16777216 * b3 < 2 ^ 32 /\
  fst (convert_list_to_int r (heap_set h r [b0; b1])) =
    Ok (Some (b0 + 256 * b1)) /\
  0 <= b0 + 256 * b1 < 2 ^ 16.
Proof.
  rewrite !convert_list_to_int_eq, !heap_set_same. cbn [rev app fst].
  rewrite lor_bytes_4 by assumption.
  rewrite (lor_shiftl_add b1 b0 8) by (change (2 ^ 8) with 256; exact H0 || lia).
  change (2 ^ 8) with 256. change (2 ^ 32) with 4294967296.
  change (2 ^ 16) with 65536.
  unfold is_u8 in *.
  repeat split; try lia; do 2 f_equal; lia.
Qed.

Lemma convert_list_to_int_little_endian_witness :
  is_u8 0x78 /\ is_u8 0x56 /\ is_u8 0x34 /\ is_u8 0x12 /\
  fst (convert_list_to_int 0%nat (heap_set (fun _ => []) 0%nat [0x78; 0x56; 0x34; 0x12])) =
    Ok (Some (0x78 + 256 * 0x56 + 65536 * 0x34 + 16777216 * 0x12)) /\
  0 <= 0x78 + 256 * 0x56 + 65536 * 0x34 + 16777216 * 0x12 < 2 ^ 32 /\
  fst (convert_list_to_int 0%nat (heap_set (fun _ => []) 0%nat [0x78; 0x56])) =
    Ok (Some (0x78 + 256 * 0x56)) /\
  0 <= 0x78 + 256 * 0x56 < 2 ^ 16.
Proof.
  assert (H0 : is_u8 0x78) by (unfold is_u8; lia).
  assert (H1 : is_u8 0x56) by (unfold is_u8; lia).
  assert (H2 : is_u8 0x34) by (unfold is_u8; lia).
  assert (H3 : is_u8 0x12) by (unfold is_u8; lia).
  split; [exact H0|]. split; [exact H1|]. split; [exact H2|]. split; [exact H3|].
  exact (convert_list_to_int_little_endian (fun _ => []) 0%nat
           0x78 0x56 0x34 0x12 H0 H1 H2 H3).
Defined.

(** X4: on four-byte lists [convert_list_to_int] is one-to-one, and every
    integer from 0 to [2^32 - 1] is the value of some four-byte list. *)
Theorem convert_list_to_int_bijective (h : heap) (r : addr) :
  (forall l l',
     List.length l = 4%nat -> List.length l' = 4%nat ->
     Forall is_u8 l -> Forall is_u8 l' ->
     fst (convert_list_to_int r (heap_set h r l)) =
     fst (convert_list_to_int r (heap_set h r l')) ->
     l = l') /\
  (forall n, 0 <= n < 2 ^ 32 ->
     exists l, List.length l = 4%nat /\ Forall is_u8 l /\
               fst (convert_list_to_int r (heap_set h r l)) = Ok (Some n)).
Proof.
  split.
  - intros l l' Hl Hl' Hb Hb' Heq.
    destruct l as [|a0 [|a1 [|a2 [|a3 [|? ?]]]]]; try discriminate Hl.
    destruct l' as [|c0 [|c1 [|c2 [|c3 [|? ?]]]]]; try discriminate Hl'.
    repeat match goal with H : Forall _ (_ :: _) |- _ =>
      apply Forall_cons_iff in H; destruct H end.
    rewrite !convert_list_to_int_eq, !heap_set_same in Heq.
    cbn [rev app fst] in Heq.
    rewrite !lor_bytes_4 in Heq by assumption.
    injection Heq as Heq. unfold is_u8 in *.
    assert (a0 = c0 /\ a1 = c1 /\ a2 = c2 /\ a3 = c3) as (-> & -> & -> & ->) by lia.
    reflexivity.
  - intros n Hn. change (2 ^ 32) with 4294967296 in Hn.
    exists [n mod 256; (n / 256) mod 256; (n / 65536) mod 256; n / 16777216].
    assert (Hb : is_u8 (n mod 256) /\ is_u8 ((n / 256) mod 256) /\
                 is_u8 ((n / 65536) mod 256) /\ is_u8 (n / 16777216)).
    { unfold is_u8. repeat split; Z.div_mod_to_equations; lia. }
    destruct Hb as (B0 & B1 & B2 & B3).
    split; [reflexivity|]. split; [repeat (constructor; [assumption|]); constructor|].
    rewrite convert_list_to_int_eq, heap_set_same. cbn [rev app fst].
    rewrite lor_bytes_4 by assumption.
    do 2 f_equal. Z.div_mod_to_equations. lia.
Qed.

(** X5: [convert_list_to_int] reverses the caller's list in place and
    leaves every other list alone; a second call on the same list puts it
    back, and for a four-element list that second call returns the
    big-endian reading of the original list, the value of [u8_to_u32]. *)
Theorem convert_list_to_int_mutates (r : addr) (h : heap) :
  let h1 := snd (convert_list_to_int r h) in
  let second := convert_list_to_int r h1 in
  h1 r = rev (h r) /\
  (forall a, a <> r -> h1 a = h a) /\
  snd second r = h r /\
  (List.length (h r) = 4%nat ->
   fst second = (v <- u8_to_u32 r h ;; Ok (Some v))).
Proof.
  cbv zeta. rewrite !convert_list_to_int_eq. cbn [fst snd].
  rewrite !heap_set_same, rev_involutive.
  split; [reflexivity|]. split; [|split; [reflexivity|]].
  - intros a Ha. apply heap_set_other. exact Ha.
  - intro Hlen. unfold u8_to_u32.
    destruct (h r) as [|b0 [|b1 [|b2 [|b3 [|? ?]]]]]; try discriminate Hlen.
    reflexivity.
Qed.

Lemma convert_list_to_int_mutates_witness :
  let h := heap_set (fun _ => []) 0%nat [1; 2; 3; 4] in
  let h1 := snd (convert_list_to_int 0%nat h) in
  let second := convert_list_to_int 0%nat h1 in
  List.length (h 0%nat) = 4%nat /\
  h1 0%nat = rev (h 0%nat) /\
  (forall a, a <> 0%nat -> h1 a = h a) /\
  snd second 0%nat = h 0%nat /\
  fst second = (v <- u8_to_u32 0%nat h ;; Ok (Some v)).
Proof.
  cbv zeta. split; [reflexivity|].
  pose proof (convert_list_to_int_mutates 0%nat
                (heap_set (fun _ => []) 0%nat [1; 2; 3; 4])) as H.
  cbv zeta in H. destruct H as (H1 & H2 & H3 & H4).
  split; [exact H1|]. split; [exact H2|]. split; [exact H3|].
  apply H4. reflexivity.
Defined.

(** X6: [convert_list_to_int] returns [None] for a list whose length is
    neither 4 nor 2; [u8_to_u32] raises [IndexError] on fewer than four
    elements and ignores whatever follows the fourth. *)
Theorem byte_conversions_by_length (r : addr) (h : heap) (l extra : list Z) :
  ((List.length l <> 4)%nat -> (List.length l <> 2)%nat ->
   fst (convert_list_to_int r (heap_set h r l)) = Ok None) /\
  ((List.length l < 4)%nat ->
   u8_to_u32 r (heap_set h r l) = Raise IndexError) /\
  (List.length l = 4%nat ->
   u8_to_u32 r (heap_set h r (l ++ extra)) = u8_to_u32 r (heap_set h r l)).
Proof.
  split; [|split].
  - intros H4 H2. rewrite convert_list_to_int_eq, heap_set_same. cbn [fst].
    rewrite <- length_rev in H4, H2.
    destruct (rev l) as [|b0 [|b1 [|b2 [|b3 [|? ?]]]]]; cbn in H4, H2;
      try reflexivity; lia.
  - intro Hlen. unfold u8_to_u32. rewrite heap_set_same.
    destruct l as [|b0 [|b1 [|b2 [|b3 ?]]]]; cbn in Hlen; try reflexivity; lia.
  - intro Hlen. unfold u8_to_u32. rewrite !heap_set_same.
    destruct l as [|b0 [|b1 [|b2 [|b3 [|? ?]]]]]; try discriminate Hlen.
    reflexivity.
Qed.

Lemma byte_conversions_by_length_witness :
  fst (convert_list_to_int 0%nat (heap_set (fun _ => []) 0%nat [1; 2; 3])) = Ok None /\
  u8_to_u32 0%nat (heap_set (fun _ => []) 0%nat [1; 2; 3]) = Raise IndexError /\
  u8_to_u32 0%nat (heap_set (fun _ => []) 0%nat ([1; 2; 3; 4] ++ [5; 6])) =
  u8_to_u32 0%nat (heap_set (fun _ => []) 0%nat [1; 2; 3; 4]).
Proof.
  split; [|split].
  - apply (proj1 (byte_conversions_by_length 0%nat (fun _ => []) [1; 2; 3] []));
      cbn; lia.
  - apply (proj1 (proj2 (byte_conversions_by_length 0%nat (fun _ => [])
                           [1; 2; 3] []))).
    cbn; lia.
  - apply (proj2 (proj2 (byte_conversions_by_length 0%nat (fun _ => [])
                           [1; 2; 3; 4] [5; 6]))).
    reflexivity.
Defined.

Lemma convert_list_to_int_bijective_witness :
  [1; 2; 3; 4] = [1; 2; 3; 4] /\
  exists l, List.length l = 4%nat /\ Forall is_u8 l /\
            fst (convert_list_to_int 0%nat (heap_set (fun _ => []) 0%nat l)) =
            Ok (Some 305419896).
Proof.
  assert (Hb : Forall is_u8 [1; 2; 3; 4]).
  { repeat (constructor; [unfold is_u8; lia|]). constructor. }
  split.
  - apply (proj1 (convert_list_to_int_bijective (fun _ => []) 0%nat)
             [1; 2; 3; 4] [1; 2; 3; 4]); try reflexivity; exact Hb.
  - apply (proj2 (convert_list_to_int_bijective (fun _ => []) 0%nat) 305419896).
    change (2 ^ 32) with 4294967296. lia.
Defined.

(** ** [scale.py]: more on [check_index] and the generated sequence *)

(** X7: [check_index] returns the index of the first element equal to the
    target, and raises [ValueError] exactly when no element equals it. *)
Theorem check_index_first_occurrence (target : Q) (dataset : list Q) :
  (exists i v,
     check_index target dataset = Ok i /\
     nth_error dataset i = Some v /\ (v == target)%Q /\
     forall j w, (j < i)%nat -> nth_error dataset j = Some w -> ~ (w == target)%Q) \/
  (check_index target dataset = Raise ValueError /\
   forall w, In w dataset -> ~ (w == target)%Q).
Proof.
  unfold check_index. induction dataset as [|y l IH].
  - right. split; [reflexivity|]. intros w [].
  - cbn [list_index_Q]. destruct (Qeq_bool y target) eqn:E.
    + left. exists 0%nat, y. apply Qeq_bool_iff in E.
      repeat split; auto. intros j w Hj. lia.
    + apply Qeq_bool_false_iff in E.
      destruct IH as [(i & v & Hi & Hn & Hv & Hfirst)|(Hr & Hnone)].
      * left. exists (S i), v. rewrite Hi. repeat split; auto.
        intros j w Hj Hw. destruct j as [|j].
        -- injection Hw as <-. exact E.
        -- apply (Hfirst j w); [lia|exact Hw].
      * right. rewrite Hr. split; [reflexivity|].
        intros w [<-|Hw]; [exact E|apply Hnone; exact Hw].
Qed.

(** *** The states the loop runs through *)

Lemma iter_state_lt (M : list Z) (n idx : nat) (e : Z) :
  M <> [] -> (idx < List.length M)%nat ->
  (fst (iter_state M n idx e) < List.length M)%nat.
Proof.
  intros HM. revert idx e. induction n as [|n IH]; intros idx e Hidx; [exact Hidx|].
  cbn [iter_state]. apply IH. apply next_idx_lt. exact HM.
Qed.

Lemma step_value_iter_le (M : list Z) :
  decade_mantissas M ->
  forall n idx e,
    (idx < List.length M)%nat ->
    (step_value M idx e <=
     step_value M (fst (iter_state M n idx e)) (snd (iter_state M n idx e)))%Q.
Proof.
  intros HM. assert (HM' : M <> []) by apply HM.
  induction n as [|n IH]; intros idx e Hidx; [apply Qle_refl|].
  cbn [iter_state]. eapply Qle_trans.
  - apply Qlt_le_weak. apply (step_value_lt_next M idx e HM Hidx).
  - apply IH. apply next_idx_lt. exact HM'.
Qed.

(** Every state whose value is within [MAX_VAL] is in the list. *)
Lemma calc_loop_contains (M : list Z) (MAX : Q) :
  decade_mantissas M ->
  forall n fuel idx e l,
    (idx < List.length M)%nat ->
    calc_loop fuel M MAX idx e (step_value M idx e) = Ok l ->
    (step_value M (fst (iter_state M n idx e)) (snd (iter_state M n idx e))
     <= MAX)%Q ->
    In (step_value M (fst (iter_state M n idx e)) (snd (iter_state M n idx e))) l.
Proof.
  intros HM. assert (HM' : M <> []) by apply HM.
  induction n as [|n IH]; intros fuel idx e l Hidx H Hle.
  - destruct fuel as [|fuel]; [discriminate|].
    rewrite (calc_loop_S fuel M MAX idx e _ HM') in H.
    cbn [iter_state fst snd] in *.
    apply Qle_bool_iff in Hle. rewrite Hle in H.
    apply bind_Ok in H. destruct H as (rest & _ & [= <-]). left. reflexivity.
  - destruct fuel as [|fuel]; [discriminate|].
    rewrite (calc_loop_S fuel M MAX idx e _ HM') in H.
    assert (Hcur : (step_value M idx e <= MAX)%Q).
    { eapply Qle_trans; [|exact Hle].
      apply (step_value_iter_le M HM (S n) idx e Hidx). }
    apply Qle_bool_iff in Hcur. rewrite Hcur in H.
    apply bind_Ok in H. destruct H as (rest & Hrest & [= <-]).
    right. cbn [iter_state] in *.
    apply (IH fuel _ _ rest (next_idx_lt M idx HM') Hrest Hle).
Qed.

(** The states are numbered by [e * len + idx]; [n] turns add [n]. *)
Lemma iter_state_reach (M : list Z) :
  M <> [] ->
  forall n i e j k,
    (i < List.length M)%nat -> (j < List.length M)%nat ->
    (k - e) * Z.of_nat (List.length M) + Z.of_nat j - Z.of_nat i = Z.of_nat n ->
    iter_state M n i e = (j, k).
Proof.
  intros HM. induction n as [|n IH]; intros i e j k Hi Hj Hn.
  - cbn [iter_state].
    assert (k = e) by nia. subst k. f_equal. lia.
  - cbn [iter_state].
    destruct (next_state_cases M i e Hi) as [(Hlt & -> & ->)|(Heq & -> & ->)];
      apply IH; try lia.
Qed.

Lemma step_value_order (M : list Z) (i j : nat) (e k : Z) :
  decade_mantissas M ->
  (i < List.length M)%nat -> (j < List.length M)%nat ->
  (step_value M i e < step_value M j k)%Q ->
  0 < (k - e) * Z.of_nat (List.length M) + Z.of_nat j - Z.of_nat i.
Proof.
  intros HM Hi Hj Hlt. assert (HM' : M <> []) by apply HM.
  destruct (Z.lt_ge_cases 0
              ((k - e) * Z.of_nat (List.length M) + Z.of_nat j - Z.of_nat i))
    as [H|H]; [exact H|exfalso].
  set (n := Z.to_nat ((e - k) * Z.of_nat (List.length M) + Z.of_nat i - Z.of_nat j)).
  assert (Hreach : iter_state M n j k = (i, e)).
  { apply (iter_state_reach M HM'); try assumption. unfold n. lia. }
  pose proof (step_value_iter_le M HM n j k Hj) as Hle.
  rewrite Hreach in Hle. cbn [fst snd] in Hle. lra.
Qed.

(** *** A [MIN_VAL] that is itself a step value *)

Lemma round_half_even_integer (x : Q) (a : Z) :
  (x == inject_Z a)%Q -> round_half_even x = a.
Proof.
  intro H.
  destruct (round_half_even_between x a a) as [H1 H2];
    try (rewrite H; apply Qle_refl). lia.
Qed.

(** A digit times a power of ten prints with that digit and exponent. *)
Lemma sci_digits_step_value (x : Q) (m k : Z) :
  1 <= m <= 9 -> (x == inject_Z m * pow10 k)%Q ->
  leading_digit x = m /\ sci_exponent x = k.
Proof.
  intros Hm Hx.
  pose proof (pow10_pos k) as Hp.
  assert (Hm1 : (inject_Z 1 <= inject_Z m)%Q) by (rewrite <- Zle_Qle; lia).
  assert (Hm9 : (inject_Z m <= inject_Z 9)%Q) by (rewrite <- Zle_Qle; lia).
  change (inject_Z 1) with 1%Q in Hm1. change (inject_Z 9) with 9%Q in Hm9.
  assert (Hlo : (pow10 k <= x)%Q) by (rewrite Hx; nra).
  assert (Hhi : (x < pow10 (k + 1))%Q) by (rewrite Hx, pow10_succ; nra).
  assert (Hpos : (0 < x)%Q) by lra.
  destruct (exponent10_spec x Hpos) as [Elo Ehi].
  assert (He : exponent10 x = k).
  { destruct (Z.lt_trichotomy (exponent10 x) k) as [Hlt|[Heq|Hgt]]; [|exact Heq|].
    - pose proof (pow10_le (exponent10 x + 1) k ltac:(lia)). lra.
    - pose proof (pow10_le (k + 1) (exponent10 x) ltac:(lia)). lra. }
  unfold leading_digit, sci_exponent, sci_digits. rewrite He.
  assert (Hs : (x * pow10 (6 - k) == inject_Z (m * 10 ^ 6))%Q).
  { rewrite Hx, <- Qmult_assoc, (pow10_split k), inject_Z_mult. reflexivity. }
  rewrite (round_half_even_integer _ _ Hs).
  change (10 ^ 6) with 1000000. change (10 ^ 7) with 10000000.
  destruct (Z.eqb_spec (m * 1000000) 10000000) as [E|E]; [lia|].
  cbn [fst snd]. split; [|reflexivity].
  apply Z.div_mul. lia.
Qed.

(** *** Runs of the generator *)

(** For a positive [MIN_VAL] within [MAX_VAL] whose digit is in the list,
    a run with enough fuel returns [MIN_VAL] followed by what the loop
    builds from the next state. *)
Lemma calc_valid_inputs_run (MIN MAX : Q) (M : list Z) :
  (0 < MIN)%Q -> (MIN <= MAX)%Q -> ascending_mantissas M ->
  In (leading_digit MIN) M ->
  exists idx fuel1 rest,
    (idx < List.length M)%nat /\ nth idx M 0 = leading_digit MIN /\
    calc_loop fuel1 M MAX (next_idx M idx) (next_exp M idx (sci_exponent MIN))
      (step_value M (next_idx M idx) (next_exp M idx (sci_exponent MIN))) =
    Ok rest /\
    forall fuel, (S fuel1 <= fuel)%nat ->
      calc_valid_inputs fuel MIN MAX M = Ok (MIN :: rest).
Proof.
  intros Hmin Hle HA Hdigit.
  destruct (list_index_present M _ Hdigit) as (idx & Hidx & Hlt & Hnth).
  assert (HM : M <> []) by (intros ->; cbn in Hlt; lia).
  pose proof (ascending_positive M HA) as Hpos.
  set (e0 := sci_exponent MIN).
  set (fuel1 := (Z.to_nat (Z.max 0 (Qnum MAX) - next_exp M idx e0) * List.length M +
                 (List.length M - next_idx M idx))%nat).
  destruct (calc_loop_terminates M MAX _ HM Hpos (pow10_above MAX) fuel1
              (next_idx M idx) (next_exp M idx e0) (next_idx_lt M idx HM)
              (Nat.le_refl _)) as [rest Hrest].
  exists idx, fuel1, rest. repeat split; try assumption.
  intros fuel Hfuel.
  rewrite (calc_valid_inputs_positive fuel MIN MAX M Hmin), Hidx. cbn [bind].
  apply (calc_loop_fuel_mono M MAX (S fuel1)); [|exact Hfuel].
  rewrite (calc_loop_S fuel1 M MAX idx (sci_exponent MIN) MIN HM).
  apply Qle_bool_iff in Hle. rewrite Hle. fold e0. rewrite Hrest. reflexivity.
Qed.

(** X8: completeness of the generated sequence.  When [MIN_VAL] is itself
    a digit of the mantissa list times a power of ten, and the mantissas
    ascend strictly within one decade, the sequence contains every
    mantissa times a power of ten that lies between [MIN_VAL] and
    [MAX_VAL], both included. *)
Theorem calc_valid_inputs_complete (MIN MAX : Q) (M : list Z) (m0 k0 : Z)
    (HM : decade_mantissas M) (Hm0 : In m0 M) (Hdigit : 1 <= m0 <= 9)
    (HMIN : (MIN == inject_Z m0 * pow10 k0)%Q) :
  exists fuel0 seq,
    (forall fuel, (fuel0 <= fuel)%nat ->
       calc_valid_inputs fuel MIN MAX M = Ok seq) /\
    forall m k,
      In m M -> (MIN <= inject_Z m * pow10 k)%Q ->
      (inject_Z m * pow10 k <= MAX)%Q ->
      exists v, In v seq /\ (v == inject_Z m * pow10 k)%Q.
Proof.
  destruct (sci_digits_step_value MIN m0 k0 Hdigit HMIN) as [Hd He].
  assert (Hmin : (0 < MIN)%Q).
  { rewrite HMIN. apply Qmult_lt_0_compat; [|apply pow10_pos].
    change 0%Q with (inject_Z 0). rewrite <- Zlt_Qlt. lia. }
  assert (HM' : M <> []) by apply HM.
  destruct (Qlt_le_dec MAX MIN) as [Hgt|Hle].
  - exists 1%nat, []. split.
    + intros fuel Hfuel. destruct fuel as [|fuel]; [lia|].
      rewrite (calc_valid_inputs_positive _ MIN MAX M Hmin).
      rewrite <- Hd in Hm0.
      destruct (list_index_present M _ Hm0) as (idx & -> & _).
      cbn [bind calc_loop]. apply Qle_bool_false_iff in Hgt. rewrite Hgt.
      reflexivity.
    + intros m k _ H1 H2. exfalso. lra.
  - rewrite <- Hd in Hm0.
    destruct (calc_valid_inputs_run MIN MAX M Hmin Hle (proj1 HM) Hm0)
      as (idx & fuel1 & rest & Hidx & Hnth & Hrest & Hrun).
    rewrite Hd in Hnth. rewrite He in Hrest.
    exists (S fuel1), (MIN :: rest). split; [exact Hrun|].
    intros m k Hm H1 H2.
    destruct (In_nth M m 0 Hm) as (j & Hj & Hjm).
    assert (Hstart : (step_value M idx k0 == MIN)%Q).
    { unfold step_value. rewrite Hnth, HMIN. reflexivity. }
    destruct (Qlt_le_dec MIN (inject_Z m * pow10 k)) as [Hlt|Hge].
    + exists (step_value M j k). split.
      * right.
        assert (Hord : 0 < (k - k0) * Z.of_nat (List.length M)
                           + Z.of_nat j - Z.of_nat idx).
        { apply (step_value_order M idx j k0 k HM Hidx Hj).
          rewrite Hstart. unfold step_value. rewrite Hjm. exact Hlt. }
        set (n := Z.to_nat ((k - k0) * Z.of_nat (List.length M)
                            + Z.of_nat j - Z.of_nat idx - 1)).
        assert (Hreach : iter_state M (S n) idx k0 = (j, k)).
        { apply (iter_state_reach M HM'); try assumption. unfold n. lia. }
        cbn [iter_state] in Hreach.
        pose proof (calc_loop_contains M MAX HM n fuel1 _ _ rest
                      (next_idx_lt M idx HM') Hrest) as Hin.
        rewrite Hreach in Hin. cbn [fst snd] in Hin. apply Hin.
        unfold step_value. rewrite Hjm. exact H2.
      * unfold step_value. rewrite Hjm. reflexivity.
    + exists MIN. split; [left; reflexivity|]. apply Qle_antisym; assumption.
Qed.

Lemma calc_valid_inputs_complete_witness :
  decade_mantissas [1; 2; 5] /\ In 2 [1; 2; 5] /\ 1 <= 2 <= 9 /\
  (0.002 == inject_Z 2 * pow10 (-3))%Q /\
  exists fuel0 seq,
    (forall fuel, (fuel0 <= fuel)%nat ->
       calc_valid_inputs fuel 0.002 10 [1; 2; 5] = Ok seq) /\
    forall m k,
      In m [1; 2; 5] -> (0.002 <= inject_Z m * pow10 k)%Q ->
      (inject_Z m * pow10 k <= 10)%Q ->
      exists v, In v seq /\ (v == inject_Z m * pow10 k)%Q.
Proof.
  assert (H1 : decade_mantissas [1; 2; 5]).
  { repeat split; try discriminate; repeat constructor. }
  assert (H2 : In 2 [1; 2; 5]) by (right; left; reflexivity).
  assert (H3 : 1 <= 2 <= 9) by lia.
  assert (H4 : (0.002 == inject_Z 2 * pow10 (-3))%Q) by reflexivity.
  split; [exact H1|]. split; [exact H2|]. split; [exact H3|]. split; [exact H4|].
  exact (calc_valid_inputs_complete 0.002 10 [1; 2; 5] 2 (-3) H1 H2 H3 H4).
Defined.

(** X9: a range that is a single point.  For a positive [MIN_VAL] equal
    to [MAX_VAL], with strictly ascending positive mantissas that hold the
    leading digit ['{0:e}'] prints for it ([leading_digit], taken after
    rounding to seven significant digits), the sequence is [[MIN_VAL]]
    alone. *)
Theorem calc_valid_inputs_single (fuel : nat) (MIN MAX : Q) (M : list Z)
    (Hfuel : (2 <= fuel)%nat) (Hmin : (0 < MIN)%Q) (Heq : (MAX == MIN)%Q)
    (HA : ascending_mantissas M) (Hdigit : In (leading_digit MIN) M) :
  calc_valid_inputs fuel MIN MAX M = Ok [MIN].
Proof.
  destruct (list_index_present M _ Hdigit) as (idx & Hidx & Hlt & Hnth).
  assert (HM : M <> []) by (intros ->; cbn in Hlt; lia).
  rewrite (calc_valid_inputs_positive fuel MIN MAX M Hmin), Hidx. cbn [bind].
  apply (calc_loop_fuel_mono M MAX 2); [|exact Hfuel].
  rewrite (calc_loop_S 1 M MAX idx _ MIN HM).
  assert (E1 : Qle_bool MIN MAX = true).
  { apply Qle_bool_iff. rewrite Heq. apply Qle_refl. }
  rewrite E1.
  rewrite (calc_loop_S 0 M MAX _ _ _ HM).
  destruct (sci_digits_spec MIN Hmin) as [_ Hbelow].
  pose proof (leading_digit_range MIN Hmin) as Hrange.
  destruct HA as [Hs Hhd].
  assert (Hnext : (inject_Z (nth idx M 0 + 1)%Z * pow10 (sci_exponent MIN) <=
                   step_value M (next_idx M idx)
                     (next_exp M idx (sci_exponent MIN)))%Q).
  { apply next_value_above; try assumption. rewrite Hnth. lia. }
  rewrite Hnth in Hnext.
  assert (E2 : Qle_bool (step_value M (next_idx M idx)
                           (next_exp M idx (sci_exponent MIN))) MAX = false).
  { apply Qle_bool_false_iff. rewrite Heq. lra. }
  rewrite E2. reflexivity.
Qed.

Lemma calc_valid_inputs_single_witness :
  (2 <= 2)%nat /\ (0 < 0.5)%Q /\ (0.5 == 0.5)%Q /\
  ascending_mantissas [1; 2; 5] /\ In (leading_digit 0.5) [1; 2; 5] /\
  calc_valid_inputs 2 0.5 0.5 [1; 2; 5] = Ok [0.5%Q].
Proof.
  assert (H1 : (2 <= 2)%nat) by lia.
  assert (H2 : (0 < 0.5)%Q) by reflexivity.
  assert (H3 : (0.5 == 0.5)%Q) by reflexivity.
  assert (H4 : ascending_mantissas [1; 2; 5]).
  { split; [repeat constructor|reflexivity]. }
  assert (H5 : In (leading_digit 0.5) [1; 2; 5])
    by (right; right; left; reflexivity).
  split; [exact H1|]. split; [exact H2|]. split; [exact H3|].
  split; [exact H4|]. split; [exact H5|].
  exact (calc_valid_inputs_single 2 0.5 0.5 [1; 2; 5] H1 H2 H3 H4 H5).
Defined.

Lemma calc_loop_never_ends (M : list Z) (MAX : Q) :
  M <> [] -> Forall (fun m => m <= 0) M -> (0 <= MAX)%Q ->
  forall fuel idx e v, (v <= MAX)%Q -> calc_loop fuel M MAX idx e v = Timeout.
Proof.
  intros HM Hneg Hmax.
  induction fuel as [|fuel IH]; intros idx e v Hv; [reflexivity|].
  rewrite (calc_loop_S fuel M MAX idx e v HM).
  apply Qle_bool_iff in Hv. rewrite Hv.
  rewrite IH; [reflexivity|].
  unfold step_value. rewrite Forall_forall in Hneg.
  pose proof (Hneg _ (nth_In M 0 (next_idx_lt M idx HM))) as Hm.
  rewrite Zle_Qle in Hm. change (inject_Z 0) with 0%Q in Hm.
  pose proof (pow10_pos (next_exp M idx e)). nra.
Qed.

(** X10: the generator has no guard against mantissas that do not
    advance.  When [MIN_VAL] is 0, the list holds 0 and no positive
    mantissa, and [MAX_VAL] is not negative, the loop never reaches its
    exit: every amount of fuel is used up. *)
Theorem calc_valid_inputs_never_ends (fuel : nat) (MIN MAX : Q) (M : list Z)
    (Hmin : (MIN == 0)%Q) (Hmax : (0 <= MAX)%Q)
    (Hzero : In 0 M) (Hneg : Forall (fun m => m <= 0) M) :
  calc_valid_inputs fuel MIN MAX M = Timeout.
Proof.
  unfold calc_valid_inputs, format_e.
  pose proof Hmin as Hb. apply Qeq_bool_iff in Hb. rewrite Hb.
  cbn [str_first bind]. change (py_int "0") with (@Ok Z 0). cbn [bind].
  destruct (list_index_present M 0 Hzero) as (idx & -> & Hlt & _).
  cbn [bind]. change (list_get (str_split "e" "0.000000e+00") 1) with (@Ok string "+00").
  cbn [bind]. change (py_int "+00") with (@Ok Z 0). cbn [bind].
  apply calc_loop_never_ends; try assumption.
  - intros ->. cbn in Hlt. lia.
  - rewrite Hmin. exact Hmax.
Qed.

Lemma calc_valid_inputs_never_ends_witness :
  (0 == 0)%Q /\ (0 <= 10)%Q /\ In 0 [0] /\ Forall (fun m => m <= 0) [0] /\
  calc_valid_inputs 1000 0 10 [0] = Timeout.
Proof.
  assert (H1 : (0 == 0)%Q) by reflexivity.
  assert (H2 : (0 <= 10)%Q) by discriminate.
  assert (H3 : In 0 [0]) by (left; reflexivity).
  assert (H4 : Forall (fun m => m <= 0) [0]).
  { constructor; [lia|constructor]. }
  split; [exact H1|]. split; [exact H2|]. split; [exact H3|]. split; [exact H4|].
  exact (calc_valid_inputs_never_ends 1000 0 10 [0] H1 H2 H3 H4).
Defined.

(** ** [owon_vds6104.py]: what the setters send *)

Lemma pyval_in_str (s t : string) (a b : pyval) :
  (forall u, a <> VStr u) -> (forall u, b <> VStr u) ->
  pyval_in (VStr s) [VStr t; a; b] = String.eqb s t.
Proof.
  intros Ha Hb. unfold pyval_in. cbn [existsb].
  assert (E : forall v, (forall u, v <> VStr u) -> py_eq (VStr s) v = false).
  { intros v Hv. destruct v; try reflexivity. exfalso. exact (Hv _ eq_refl). }
  rewrite (E a Ha), (E b Hb). cbn [py_eq]. rewrite !orb_false_r. reflexivity.
Qed.

(** X11: [set_coupling] takes the mode string in any letter case.  On a
    channel of the list, a string whose lower-case form is ["ac"], ["dc"]
    or ["gnd"] writes exactly one command, [":CH<n>:COUP AC"], [DC] or
    [GND]; any other string writes nothing and raises nothing. *)
Theorem set_coupling_strings (channel : Z) (s : string) (log : list event)
    (Hch : channel_ok channel = true) :
  let cmd := fun token => (":CH" ++ py_str_int channel ++ ":COUP " ++ token)%string in
  (py_lower s = "ac" ->
   set_coupling channel (VStr s) log = (Done tt, log ++ [Write (cmd "AC")])) /\
  (py_lower s = "dc" ->
   set_coupling channel (VStr s) log = (Done tt, log ++ [Write (cmd "DC")])) /\
  (py_lower s = "gnd" ->
   set_coupling channel (VStr s) log = (Done tt, log ++ [Write (cmd "GND")])) /\
  (py_lower s <> "ac" -> py_lower s <> "dc" -> py_lower s <> "gnd" ->
   set_coupling channel (VStr s) log = (Done tt, log)).
Proof.
  cbv zeta. unfold set_coupling. rewrite Hch. cbn [negb].
  rewrite !pyval_in_str by (intros u; discriminate).
  repeat split.
  - intros ->. reflexivity.
  - intros ->. reflexivity.
  - intros ->. reflexivity.
  - intros H1 H2 H3.
    apply String.eqb_neq in H1, H2, H3. rewrite H1, H2, H3. reflexivity.
Qed.

Lemma set_coupling_strings_witness :
  channel_ok 2 = true /\
  set_coupling 2 (VStr "Gnd") [] = (Done tt, [Write ":CH2:COUP GND"]) /\
  set_coupling 2 (VStr "Ac") [] = (Done tt, [Write ":CH2:COUP AC"]) /\
  set_coupling 2 (VStr "earth") [] = (Done tt, []).
Proof.
  assert (Hch : channel_ok 2 = true) by reflexivity.
  split; [exact Hch|]. split; [|split].
  - apply (proj1 (proj2 (proj2 (set_coupling_strings 2 "Gnd" [] Hch)))).
    reflexivity.
  - apply (proj1 (set_coupling_strings 2 "Ac" [] Hch)). reflexivity.
  - apply (proj2 (proj2 (proj2 (set_coupling_strings 2 "earth" [] Hch))));
      discriminate.
Defined.

(** X12: [set_coupling] with an enum member.  On a channel of the list,
    [Coupling.AC] and [Coupling.DC] write their command, but
    [Coupling.GND] writes nothing and raises nothing: the last branch
    tests ['gnd', Coupling.DC, Coupling.dc], and an enum member is not
    equal to its value. *)
Theorem set_coupling_enum (channel : Z) (log : list event)
    (Hch : channel_ok channel = true) :
  set_coupling channel (VCoupling Coupling_AC) log =
    (Done tt, log ++ [Write (":CH" ++ py_str_int channel ++ ":COUP AC")%string]) /\
  set_coupling channel (VCoupling Coupling_DC) log =
    (Done tt, log ++ [Write (":CH" ++ py_str_int channel ++ ":COUP DC")%string]) /\
  set_coupling channel (VCoupling Coupling_GND) log = (Done tt, log).
Proof.
  unfold set_coupling. rewrite Hch. repeat split.
Qed.

Lemma set_coupling_enum_witness :
  channel_ok 1 = true /\
  set_coupling 1 (VCoupling Coupling_AC) [] = (Done tt, [Write ":CH1:COUP AC"]) /\
  set_coupling 1 (VCoupling Coupling_DC) [] = (Done tt, [Write ":CH1:COUP DC"]) /\
  set_coupling 1 (VCoupling Coupling_GND) [] = (Done tt, []).
Proof.
  split; [reflexivity|].
  exact (set_coupling_enum 1 [] eq_refl).
Defined.




(** *** Setters that check before they write *)

Lemma atomic_raise (e : pyexn) : atomic_setter (io_raise e).
Proof. intro log. left. exists e. reflexivity. Qed.

Lemma atomic_send (c : string) : atomic_setter (send c).
Proof. intro log. right. right. exists c. reflexivity. Qed.

Lemma atomic_ret : atomic_setter (io_ret tt).
Proof. intro log. right. left. reflexivity. Qed.

(** X14: every validating setter either raises having written nothing, or
    returns having written at most one command; none of them queries the
    instrument. *)
Theorem setters_atomic (float_str : Q -> string) (channel offset num_bits : Z)
    (mode : pyval) (depth : string) (t : Q) :
  atomic_setter (set_coupling channel mode) /\
  atomic_setter (set_channel_state channel mode) /\
  atomic_setter (memory_depth_setter depth) /\
  atomic_setter (precision_setter num_bits) /\
  atomic_setter (trig_mode_setter mode) /\
  atomic_setter (trig_holdoff_setter float_str t) /\
  atomic_setter (trig_source_setter mode) /\
  atomic_setter (trig_coupling_setter mode) /\
  atomic_setter (measurement_source_setter channel) /\
  atomic_setter (state_measurement_setter mode) /\
  atomic_setter (time_measurement_setter float_str t) /\
  atomic_setter (set_vertical_offset channel offset) /\
  atomic_setter (set_bw_limit channel mode) /\
  atomic_setter (acquire_mode_setter mode).
Proof.
  repeat split;
    unfold set_coupling, set_channel_state, memory_depth_setter,
      precision_setter, trig_mode_setter, trig_holdoff_setter,
      trig_source_setter, trig_coupling_setter, measurement_source_setter,
      state_measurement_setter, time_measurement_setter, set_vertical_offset,
      set_bw_limit, acquire_mode_setter;
    repeat match goal with
           | |- atomic_setter (if ?b then _ else _) => destruct b
           end;
    first [apply atomic_raise | apply atomic_send | apply atomic_ret].
Qed.

(** X15: a channel outside [1, 2, 3, 4].  [set_coupling], [get_coupling],
    [set_channel_state], the measurement source, [set_vertical_offset],
    [get_bw_limit] and [measure] raise without contacting the instrument;
    [set_bw_limit] returns without writing and without an error; and
    [get_channel_state] does not check the channel and sends its query. *)
Theorem invalid_channel (instrument_query : list event -> string -> string)
    (channel offset : Z) (mode : pyval) (log : list event)
    (Hch : channel_ok channel = false) :
  set_coupling channel mode log =
    (Raised (PyException "Set Coupling Errror: invalid channel"), log) /\
  get_coupling instrument_query channel log =
    (Raised (PyException "Get Coupling Errror: invalid channel"), log) /\
  set_channel_state channel mode log =
    (Raised (PyException "Invalid channel!"), log) /\
  measurement_source_setter channel log =
    (Raised (PyException "Invalid channel selected for measurement!"), log) /\
  set_vertical_offset channel offset log =
    (Raised (PyException "Invalid channel!"), log) /\
  get_bw_limit instrument_query channel log =
    (Raised (PyException "Invalid channel!"), log) /\
  measure instrument_query channel mode log =
    (Raised (PyException "Invalid channel selected for measurement!"), log) /\
  set_bw_limit channel mode log = (Done tt, log) /\
  snd (get_channel_state instrument_query channel log) =
    log ++ [Query (":CH" ++ py_str_int channel ++ ":DISP?")%string].
Proof.
  unfold set_coupling, get_coupling, set_channel_state,
    measurement_source_setter, set_vertical_offset, get_bw_limit, measure,
    set_bw_limit, get_channel_state, measurement_source_setter, io_bind.
  rewrite Hch. repeat split.
Qed.

Lemma invalid_channel_witness :
  channel_ok 5 = false /\
  set_coupling 5 (VStr "ac") [] =
    (Raised (PyException "Set Coupling Errror: invalid channel"), []) /\
  set_bw_limit 5 (VState State_enable) [] = (Done tt, []) /\
  snd (get_channel_state (fun _ _ => "ON") 5 []) = [Query ":CH5:DISP?"].
Proof.
  split; [reflexivity|].
  pose proof (invalid_channel (fun _ _ => "ON") 5 0 (VStr "ac") [] eq_refl) as H.
  split; [exact (proj1 H)|].
  pose proof (invalid_channel (fun _ _ => "ON") 5 0 (VState State_enable) []
                eq_refl) as H'.
  split; [exact (proj1 (proj2 (proj2 (proj2 (proj2 (proj2 (proj2 (proj2 H'))))))))|].
  exact (proj2 (proj2 (proj2 (proj2 (proj2 (proj2 (proj2 (proj2 H')))))))).
Defined.

(** X16: the trigger source goes out and comes back.  For [n] from 1 to 4
    the setter writes [":TRIG:SING:EDGE:SOUR CH<n>"], for the int and for
    the enum member alike; and when the instrument answers the source
    query with ["CH<n>"], whitespace around it or not, the getter returns
    [n].  Any other answer raises. *)
Theorem trig_source_round_trip
    (instrument_query : list event -> string -> string)
    (n : Z) (log log' : list event) (Hn : 1 <= n <= 4) :
  let token := ("CH" ++ py_str_int n)%string in
  let reply := py_strip (instrument_query log' ":TRIG:SING:EDGE:SOUR?") in
  trig_source_setter (VInt n) log =
    (Done tt, log ++ [Write (":TRIG:SING:EDGE:SOUR " ++ token)%string]) /\
  (reply = token ->
   trig_source_getter instrument_query log' =
     (Done n, log' ++ [Query ":TRIG:SING:EDGE:SOUR?"])) /\
  (reply <> "CH1" -> reply <> "CH2" -> reply <> "CH3" -> reply <> "CH4" ->
   trig_source_getter instrument_query log' =
     (Raised (PyException "Instrument error: invalid input received!"),
      log' ++ [Query ":TRIG:SING:EDGE:SOUR?"])) /\
  trig_source_setter (VTrigger Trigger_source_ch1) log = trig_source_setter (VInt 1) log /\
  trig_source_setter (VTrigger Trigger_source_ch2) log = trig_source_setter (VInt 2) log /\
  trig_source_setter (VTrigger Trigger_source_ch3) log = trig_source_setter (VInt 3) log /\
  trig_source_setter (VTrigger Trigger_source_ch4) log = trig_source_setter (VInt 4) log.
Proof.
  cbv zeta.
  assert (E : n = 1 \/ n = 2 \/ n = 3 \/ n = 4) by lia.
  split; [|split; [|split]].
  - destruct E as [-> | [-> | [-> | ->]]]; reflexivity.
  - intro Hr. unfold trig_source_getter, io_bind, query. rewrite Hr.
    destruct E as [-> | [-> | [-> | ->]]]; reflexivity.
  - intros H1 H2 H3 H4. unfold trig_source_getter, io_bind, query.
    cbn [dict_find].
    apply String.eqb_neq in H1, H2, H3, H4. rewrite H1, H2, H3, H4.
    reflexivity.
  - repeat split.
Qed.

Lemma trig_source_round_trip_witness :
  1 <= 3 <= 4 /\
  trig_source_setter (VInt 3) [] = (Done tt, [Write ":TRIG:SING:EDGE:SOUR CH3"]) /\
  trig_source_getter (fun _ _ => " CH3 ") [Write ":TRIG:SING:EDGE:SOUR CH3"] =
    (Done 3, [Write ":TRIG:SING:EDGE:SOUR CH3"; Query ":TRIG:SING:EDGE:SOUR?"]).
Proof.
  assert (Hn : 1 <= 3 <= 4) by lia.
  split; [exact Hn|].
  pose proof (trig_source_round_trip (fun _ _ => " CH3 ") 3 [] [Write ":TRIG:SING:EDGE:SOUR CH3"] Hn) as H.
  cbv zeta in H. destruct H as (H1 & H2 & _).
  split; [exact H1|]. apply H2. reflexivity.
Defined.

(** X17: the trigger mode does not come back the way it went out.  The
    setter writes the tokens [EDGE], [VID], [PULS] and [SLOP]; the getter
    understands the answers ["EDGE"], ["VIDeo"], ["PULSe"] and ["SLOPe"]
    and raises [KeyError] on every other answer, so an instrument that
    echoes [VID], [PULS] or [SLOP] makes the getter raise. *)
Theorem trig_mode_tokens (instrument_query : list event -> string -> string)
    (log : list event) :
  let reply := py_strip (instrument_query log ":TRIG:SING:MODE?") in
  let after := log ++ [Query ":TRIG:SING:MODE?"] in
  (trig_mode_setter (VTrigger Trigger_mode_edge) log =
     (Done tt, log ++ [Write ":TRIG:SING:MODE EDGE"]) /\
   trig_mode_setter (VTrigger Trigger_mode_video) log =
     (Done tt, log ++ [Write ":TRIG:SING:MODE VID"]) /\
   trig_mode_setter (VTrigger Trigger_mode_pulse) log =
     (Done tt, log ++ [Write ":TRIG:SING:MODE PULS"]) /\
   trig_mode_setter (VTrigger Trigger_mode_slope) log =
     (Done tt, log ++ [Write ":TRIG:SING:MODE SLOP"])) /\
  (reply = "EDGE" ->
   trig_mode_getter instrument_query log = (Done Trigger_mode_edge, after)) /\
  (reply = "VIDeo" ->
   trig_mode_getter instrument_query log = (Done Trigger_mode_video, after)) /\
  (reply = "PULSe" ->
   trig_mode_getter instrument_query log = (Done Trigger_mode_pulse, after)) /\
  (reply = "SLOPe" ->
   trig_mode_getter instrument_query log = (Done Trigger_mode_slope, after)) /\
  (reply <> "EDGE" -> reply <> "VIDeo" -> reply <> "PULSe" -> reply <> "SLOPe" ->
   trig_mode_getter instrument_query log = (Raised (PyKeyError reply), after)).
Proof.
  cbv zeta. split; [repeat split|].
  unfold trig_mode_getter, io_bind, query, dict_get. cbn [dict_find].
  repeat split; try (intros ->; reflexivity).
  intros H1 H2 H3 H4.
  apply String.eqb_neq in H1, H2, H3, H4. rewrite H1, H2, H3, H4. reflexivity.
Qed.

Lemma trig_mode_tokens_witness :
  trig_mode_setter (VTrigger Trigger_mode_video) [] =
    (Done tt, [Write ":TRIG:SING:MODE VID"]) /\
  trig_mode_getter (fun _ _ => "VID") [Write ":TRIG:SING:MODE VID"] =
    (Raised (PyKeyError "VID"),
     [Write ":TRIG:SING:MODE VID"; Query ":TRIG:SING:MODE?"]) /\
  trig_mode_getter (fun _ _ => "VIDeo") [Write ":TRIG:SING:MODE VID"] =
    (Done Trigger_mode_video,
     [Write ":TRIG:SING:MODE VID"; Query ":TRIG:SING:MODE?"]).
Proof.
  pose proof (trig_mode_tokens (fun _ _ => "VID") []) as H0.
  cbv zeta in H0. destruct H0 as ((_ & H0 & _) & _).
  split; [exact H0|]. split.
  - pose proof (trig_mode_tokens (fun _ _ => "VID") [Write ":TRIG:SING:MODE VID"]) as H.
    cbv zeta in H. destruct H as (_ & _ & _ & _ & _ & H).
    apply H; discriminate.
  - pose proof (trig_mode_tokens (fun _ _ => "VIDeo") [Write ":TRIG:SING:MODE VID"]) as H.
    cbv zeta in H. destruct H as (_ & _ & H & _).
    apply H. reflexivity.
Defined.

(** ** [owon_vds6104.py]: the identity string *)

(** X18: [check_model] splits the stripped identity on single spaces.
    With ["OWON"] and ["VDS6104"] as the first two fields and at least two
    more, it returns the manufacturer, model, serial number and version
    line from the first four fields.  A reply that stops after ["OWON"], or
    after ["OWON VDS6104"] with fewer than two further fields, raises
    [IndexError]; only a reply whose first or second field differs raises
    the "Device is not supported" exception. *)
Theorem check_model_fields (instrument_query : list event -> string -> string)
    (log : list event) :
  let fields := str_split " " (py_strip (py_strip (instrument_query log "*IDN?"))) in
  let after := log ++ [Query "*IDN?"] in
  let unsupported :=
    (@Raised string
       (PyException
          "Device is not supported. Check the device model, address, or try again."),
     after) in
  (forall serial version rest,
     fields = "OWON" :: "VDS6104" :: serial :: version :: rest ->
     check_model instrument_query log =
     (Done ("Manufacturer:OWON Model:VDS6104 S/N:" ++ serial ++ " Version:"
            ++ version)%string, after)) /\
  (fields = ["OWON"] ->
   check_model instrument_query log = (Raised PyIndexError, after)) /\
  (forall l, fields = "OWON" :: "VDS6104" :: l -> (List.length l < 2)%nat ->
     check_model instrument_query log = (Raised PyIndexError, after)) /\
  (forall x l, fields = x :: l -> x <> "OWON" ->
     check_model instrument_query log = unsupported) /\
  (forall x l, fields = "OWON" :: x :: l -> x <> "VDS6104" ->
     check_model instrument_query log = unsupported).
Proof.
  cbv zeta. unfold check_model, ident, query, io_bind.
  split; [|split; [|split; [|split]]].
  - intros serial version rest ->. reflexivity.
  - intros ->. reflexivity.
  - intros l -> Hl. destruct l as [|a [|b l]]; [reflexivity|reflexivity|].
    cbn in Hl. lia.
  - intros x l -> Hx. cbn [io_index nth_error io_ret].
    apply String.eqb_neq in Hx. rewrite Hx. reflexivity.
  - intros x l -> Hx. cbn [io_index nth_error io_ret String.eqb].
    change (String.eqb "OWON" "OWON") with true. cbv iota.
    apply String.eqb_neq in Hx. rewrite Hx. reflexivity.
Qed.

Lemma check_model_fields_witness :
  check_model (fun _ _ => "OWON VDS6104 2052100 V1.0.0 ") [] =
    (Done "Manufacturer:OWON Model:VDS6104 S/N:2052100 Version:V1.0.0",
     [Query "*IDN?"]) /\
  check_model (fun _ _ => "OWON") [] = (Raised PyIndexError, [Query "*IDN?"]) /\
  check_model (fun _ _ => "OWON VDS6104 2052100") [] =
    (Raised PyIndexError, [Query "*IDN?"]) /\
  check_model (fun _ _ => "RIGOL DS1054Z") [] =
    (Raised (PyException
       "Device is not supported. Check the device model, address, or try again."),
     [Query "*IDN?"]).
Proof.
  split; [|split; [|split]].
  - pose proof (check_model_fields (fun _ _ => "OWON VDS6104 2052100 V1.0.0 ") [])
      as H. cbv zeta in H.
    apply (proj1 H "2052100" "V1.0.0" []). reflexivity.
  - pose proof (check_model_fields (fun _ _ => "OWON") []) as H. cbv zeta in H.
    apply (proj1 (proj2 H)). reflexivity.
  - pose proof (check_model_fields (fun _ _ => "OWON VDS6104 2052100") []) as H.
    cbv zeta in H.
    apply (proj1 (proj2 (proj2 H)) ["2052100"]); [reflexivity|cbn; lia].
  - pose proof (check_model_fields (fun _ _ => "RIGOL DS1054Z") []) as H.
    cbv zeta in H.
    apply (proj1 (proj2 (proj2 (proj2 H))) "RIGOL" ["DS1054Z"]);
      [reflexivity|discriminate].
Defined.

(** ** [owon_vds6104.py]: the values that reach the instrument *)

Lemma scale_steps (fuel : nat) :
  (12 <= fuel)%nat ->
  calc_valid_inputs fuel scale_min scale_max mantissa =
  Ok [0.002; 0.005; 0.01; 0.02; 0.05; 0.1; 0.2; 0.5; 1; 2; 5]%Q.
Proof.
  intro H. apply (calc_valid_inputs_fuel_mono _ _ _ 12); [|exact H].
  vm_compute. reflexivity.
Qed.

Lemma timebase_steps (fuel : nat) :
  (35 <= fuel)%nat ->
  calc_valid_inputs fuel timebase_min timebase_max mantissa =
  Ok [1e-9; 2e-9; 5e-9; 1e-8; 2e-8; 5e-8; 1e-7; 2e-7; 5e-7;
      1e-6; 2e-6; 5e-6; 1e-5; 2e-5; 5e-5; 0.0001; 0.0002; 0.0005;
      0.001; 0.002; 0.005; 0.01; 0.02; 0.05; 0.1; 0.2; 0.5;
      1; 2; 5; 10; 20; 50; 100]%Q.
Proof.
  intro H. apply (calc_valid_inputs_fuel_mono _ _ _ 35); [|exact H].
  vm_compute. reflexivity.
Qed.

Lemma resolve_member_or_zero (x : Q) (seq : list Q) :
  In (resolve x seq) (0%Q :: seq).
Proof.
  destruct (closest_loop_result x seq false 0 0) as [H|H];
    fold (resolve x seq) in H; [left; symmetry; exact H|right; exact H].
Qed.

(** X19: whatever voltage is asked for, [set_scale] on a channel of the
    list writes exactly one command [":CH<n>:SCAL <token>"], and the token
    is the text of one of the eleven steps from 2 mV to 5 V, or of 0, with
    its spaces removed. *)
Theorem set_scale_steps (quantity_str : Quantity -> string)
    (fuel : nat) (channel : Z) (voltage : Q) (log : list event)
    (Hfuel : (12 <= fuel)%nat) (Hch : channel_ok channel = true) :
  exists v,
    In v [0; 0.002; 0.005; 0.01; 0.02; 0.05; 0.1; 0.2; 0.5; 1; 2; 5]%Q /\
    set_scale quantity_str fuel channel voltage log =
    (Done tt,
     log ++ [Write (":CH" ++ py_str_int channel ++ ":SCAL " ++
                    str_remove " " (quantity_str {| real := v; units := "v" |}))%string]).
Proof.
  unfold set_scale, get_closest_value. rewrite Hch. cbn [negb].
  rewrite (scale_steps fuel Hfuel). cbn [bind].
  eexists. split; [apply resolve_member_or_zero|]. reflexivity.
Qed.

Lemma set_scale_steps_witness :
  (12 <= 12)%nat /\ channel_ok 1 = true /\
  exists v,
    In v [0; 0.002; 0.005; 0.01; 0.02; 0.05; 0.1; 0.2; 0.5; 1; 2; 5]%Q /\
    set_scale (fun q => "200 mV") 12 1 0.25 [] =
    (Done tt,
     [] ++ [Write (":CH" ++ py_str_int 1 ++ ":SCAL " ++
                   str_remove " " ((fun q : Quantity => "200 mV")
                                     {| real := v; units := "v" |}))%string]).
Proof.
  split; [lia|]. split; [reflexivity|].
  apply (set_scale_steps (fun q => "200 mV") 12 1 0.25 []); [lia|reflexivity].
Defined.

(** X20: whatever timebase is asked for, the [timebase] setter writes
    exactly one command [":HORI:SCAL <token>"], and the token is
    [render_token] of one of the 34 steps from 1 ns to 100 s, or of 0. *)
Theorem timebase_setter_steps
    (quantity_render : Quantity -> render_args -> string)
    (fuel : nat) (time_base : Q) (log : list event)
    (Hfuel : (35 <= fuel)%nat) :
  exists v,
    In v [0; 1e-9; 2e-9; 5e-9; 1e-8; 2e-8; 5e-8; 1e-7; 2e-7; 5e-7;
          1e-6; 2e-6; 5e-6; 1e-5; 2e-5; 5e-5; 0.0001; 0.0002; 0.0005;
          0.001; 0.002; 0.005; 0.01; 0.02; 0.05; 0.1; 0.2; 0.5;
          1; 2; 5; 10; 20; 50; 100]%Q /\
    timebase_setter quantity_render fuel time_base log =
    (Done tt,
     log ++ [Write (":HORI:SCAL " ++ render_token quantity_render v "s")%string]).
Proof.
  unfold timebase_setter, get_closest_value.
  pose proof (timebase_steps fuel Hfuel) as H.
  unfold timebase_min, timebase_max, mantissa in H. rewrite H. cbn [bind].
  eexists. split; [apply resolve_member_or_zero|]. reflexivity.
Qed.

Lemma timebase_setter_steps_witness :
  (35 <= 40)%nat /\
  exists v,
    In v [0; 1e-9; 2e-9; 5e-9; 1e-8; 2e-8; 5e-8; 1e-7; 2e-7; 5e-7;
          1e-6; 2e-6; 5e-6; 1e-5; 2e-5; 5e-5; 0.0001; 0.0002; 0.0005;
          0.001; 0.002; 0.005; 0.01; 0.02; 0.05; 0.1; 0.2; 0.5;
          1; 2; 5; 10; 20; 50; 100]%Q /\
    timebase_setter sample_render 40 0.00023 [] =
    (Done tt,
     [] ++ [Write (":HORI:SCAL " ++ render_token sample_render v "s")%string]).
Proof.
  split; [lia|].
  apply (timebase_setter_steps sample_render 40 0.00023 []). lia.
Defined.

(** ** [SCPI_example.py]: the sample rate *)

(** X21: whenever [getSampleRate] returns, the rate is the smaller of the
    maximum rate of the chosen precision and the sampling points per
    division over the timebase; so it never exceeds 1 GS/s, and the number
    of outputs plays no part.  A timebase of 0 raises
    [ZeroDivisionError], and a sampling-points key outside the table,
    such as the upper-case ["1K"] that [memory_depth] uses, raises
    [KeyError]. *)
Theorem getSampleRate_capped (outputs bits samplingPoints : string)
    (timeBase rate : Q)
    (Hret : getSampleRate outputs bits samplingPoints timeBase = Done rate) :
  (exists maxRate samplePts,
     dict_find [("8", 1e9); ("12", 500e6); ("14", 125e6)]%Q bits = Some maxRate /\
     dict_find samplingPointsPerDiv samplingPoints = Some samplePts /\
     (rate == Qmin maxRate (samplePts / timeBase))%Q /\
     (rate <= 1e9)%Q) /\
  (forall other, In other ["single"; "dual"; "quad"] ->
     getSampleRate other bits samplingPoints timeBase = Done rate) /\
  getSampleRate outputs bits samplingPoints 0 = Raised PyZeroDivisionError /\
  getSampleRate outputs bits "1K" timeBase = Raised (PyKeyError "1K").
Proof.
  assert (Hrates : forall o, In o ["single"; "dual"; "quad"] ->
            dict_item maxSampleRates o =
            Done [("8", 1e9); ("12", 500e6); ("14", 125e6)]%Q).
  { intros o Ho. simpl in Ho.
    destruct Ho as [<-|[<-|[<-|[]]]]; reflexivity. }
  assert (Hout : In outputs ["single"; "dual"; "quad"]).
  { unfold getSampleRate, dict_item in Hret. cbn [maxSampleRates dict_find] in Hret.
    destruct (String.eqb_spec outputs "single") as [->|_]; [left; reflexivity|].
    destruct (String.eqb_spec outputs "dual") as [->|_];
      [right; left; reflexivity|].
    destruct (String.eqb_spec outputs "quad") as [->|_];
      [right; right; left; reflexivity|].
    discriminate Hret. }
  unfold getSampleRate in *. rewrite (Hrates outputs Hout) in *.
  unfold dict_item in *.
  destruct (dict_find [("8", 1e9); ("12", 500e6); ("14", 125e6)]%Q bits)
    as [maxRate|] eqn:Ebits; [|discriminate Hret].
  assert (Hcap : (maxRate <= 1e9)%Q).
  { cbn [dict_find] in Ebits.
    destruct (String.eqb bits "8"); [injection Ebits as <-; discriminate|].
    destruct (String.eqb bits "12"); [injection Ebits as <-; discriminate|].
    destruct (String.eqb bits "14"); [injection Ebits as <-; discriminate|].
    discriminate Ebits. }
  split; [|split; [|split]].
  - destruct (dict_find samplingPointsPerDiv samplingPoints)
      as [samplePts|] eqn:Epts; [|discriminate Hret].
    exists maxRate, samplePts. split; [reflexivity|]. split; [reflexivity|].
    destruct (Qeq_bool timeBase 0); [discriminate Hret|].
    destruct (Qlt_bool (samplePts / timeBase) maxRate) eqn:Elt;
      injection Hret as <-.
    + apply Qlt_bool_iff in Elt. split.
      * symmetry. apply Q.min_r. apply Qlt_le_weak. exact Elt.
      * apply Qlt_le_weak. eapply Qlt_le_trans; [exact Elt|exact Hcap].
    + apply Qlt_bool_false_iff in Elt. split; [|exact Hcap].
      symmetry. apply Q.min_l. exact Elt.
  - intros other Ho. rewrite (Hrates other Ho), Ebits. exact Hret.
  - destruct (dict_find samplingPointsPerDiv samplingPoints);
      [reflexivity|discriminate Hret].
  - reflexivity.
Qed.

Lemma getSampleRate_capped_witness :
  getSampleRate "single" "8" "1k" 200e-6 = Done (50 / 200e-6)%Q /\
  (exists maxRate samplePts,
     dict_find [("8", 1e9); ("12", 500e6); ("14", 125e6)]%Q "8" = Some maxRate /\
     dict_find samplingPointsPerDiv "1k" = Some samplePts /\
     (50 / 200e-6 == Qmin maxRate (samplePts / 200e-6))%Q /\
     (50 / 200e-6 <= 1e9)%Q) /\
  (forall other, In other ["single"; "dual"; "quad"] ->
     getSampleRate other "8" "1k" 200e-6 = Done (50 / 200e-6)%Q) /\
  getSampleRate "single" "8" "1k" 0 = Raised PyZeroDivisionError /\
  getSampleRate "single" "8" "1K" 200e-6 = Raised (PyKeyError "1K").
Proof.
  assert (H : getSampleRate "single" "8" "1k" 200e-6 = Done (50 / 200e-6)%Q)
    by reflexivity.
  split; [exact H|].
  exact (getSampleRate_capped "single" "8" "1k" 200e-6 (50 / 200e-6)%Q H).
Defined.

(** ** [scale.py]: [validate_input] once more *)

Lemma same_position (r r' : Q) :
  forall l1 l1' l2 l2',
    l1 ++ r :: l2 = l1' ++ r' :: l2' ->
    (forall y, In y l1 -> ~ (y == r')%Q) ->
    (forall y, In y l1' -> ~ (y == r)%Q) ->
    r = r'.
Proof.
  induction l1 as [|a l1 IH]; intros [|a' l1'] l2 l2' Heq H1 H2;
    cbn [app] in Heq; injection Heq as Ha Hrest.
  - exact Ha.
  - exfalso. apply (H2 a'); [left; reflexivity|]. rewrite Ha. reflexivity.
  - exfalso. apply (H1 a); [left; reflexivity|]. rewrite Ha. reflexivity.
  - apply (IH l1' l2 l2' Hrest).
    + intros y Hy. apply H1. right. exact Hy.
    + intros y Hy. apply H2. right. exact Hy.
Qed.

(** X22: [validate_input] is idempotent, and it returns a member equal to
    the target whenever the list has one: validating its own result
    against the same list gives that result again. *)
Theorem validate_input_idempotent (target : Q) (vals_valid : list Q) (r : Q)
    (Hr : validate_input target vals_valid = Ok r) :
  validate_input r vals_valid = Ok r /\
  (forall v, In v vals_valid -> (v == target)%Q -> (r == target)%Q).
Proof.
  destruct vals_valid as [|x l]; [discriminate Hr|].
  assert (Hr0 : min_from (fun w => Qabs (w - target)) x l = r)
    by (unfold validate_input, py_min_key in Hr; congruence).
  clear Hr. rename Hr0 into Hr. unfold validate_input, py_min_key.
  destruct (min_from_split (fun w => Qabs (w - target)) l [] x [])
    as (l1 & l2 & Heq & H1 & H2); try (intros y []).
  rewrite Hr in Heq, H1, H2. cbn [app] in Heq.
  assert (Hzero : forall a b : Q, (a == b)%Q -> (Qabs (a - b) == 0)%Q).
  { intros a b Hab. apply Qabs_sub_zero. exact Hab. }
  split.
  - f_equal.
    destruct (min_from_split (fun w => Qabs (w - r)) l [] x [])
      as (l1' & l2' & Heq' & H1' & H2'); try (intros y []).
    cbn [app] in Heq'.
    set (r' := min_from (fun w => Qabs (w - r)) x l) in *.
    assert (Hin : In r (l1' ++ r' :: l2')).
    { rewrite <- Heq', Heq. apply in_elt. }
    pose proof (Hzero r r (Qeq_refl r)) as Hrr.
    pose proof (Qabs_nonneg (r' - r)) as Hnn.
    assert (Hr' : (r' == r)%Q).
    { apply Qabs_sub_zero. apply Qle_antisym; [|exact Hnn].
      apply in_app_or in Hin. destruct Hin as [Hin|[Hin|Hin]].
      - specialize (H1' r Hin). cbv beta in H1'. lra.
      - rewrite Hin. lra.
      - specialize (H2' r Hin). cbv beta in H2'. lra. }
    symmetry. apply (same_position r r' l1 l1' l2 l2').
    + rewrite <- Heq, <- Heq'. reflexivity.
    + intros y Hy Hyr. specialize (H1 y Hy). cbv beta in H1.
      rewrite Hyr, Hr' in H1. exact (Qlt_irrefl _ H1).
    + intros y Hy Hyr. specialize (H1' y Hy). cbv beta in H1'.
      pose proof (Hzero y r Hyr). lra.
  - intros v Hv Hvt. apply Qabs_sub_zero.
    apply Qle_antisym; [|apply Qabs_nonneg].
    pose proof (Hzero v target Hvt) as Hvz.
    rewrite Heq in Hv. apply in_app_or in Hv. destruct Hv as [Hv|[Hv|Hv]].
    + specialize (H1 v Hv). cbv beta in H1. lra.
    + rewrite Hv. lra.
    + specialize (H2 v Hv). cbv beta in H2. lra.
Qed.

Lemma validate_input_idempotent_witness :
  validate_input (101 # 10) [1; 2; 5; 10; 20]%Q = Ok 10%Q /\
  validate_input 10 [1; 2; 5; 10; 20]%Q = Ok 10%Q /\
  (forall v, In v [1; 2; 5; 10; 20]%Q -> (v == 101 # 10)%Q -> (10 == 101 # 10)%Q).
Proof.
  assert (H : validate_input (101 # 10) [1; 2; 5; 10; 20]%Q = Ok 10%Q)
    by reflexivity.
  split; [exact H|].
  exact (validate_input_idempotent (101 # 10) [1; 2; 5; 10; 20]%Q 10 H).
Defined.

(** ** [owon_vds6104.py]: [capture] *)

(** X23: [capture] on a channel of the list asks for the timebase, the
    channel's scale and its offset, then brackets one binary fetch between
    [":WAV:BEG CH<n>"], ["WAV:RANG 0,1000"] and [":WAV:END"], and returns
    [decode] of the fetched block with the scale, the offset and the
    timebase as sample period.  On a channel outside the list it raises
    "Invalid channel selected" from [get_scale], after the timebase query
    went out, so the [for] statement over an unbound [adc_wave] is not
    reached. *)
Theorem capture_commands
    (instrument_query : list event -> string -> string)
    (quantity_real float_of_reply : string -> outcome Q)
    (instrument_query_binary : list event -> string -> list Z)
    (channel : Z) (log : list event) (scale_time : Q)
    (Htime : quantity_real (py_strip (instrument_query log ":HORI:SCAL?")) =
             Done scale_time) :
  let run := capture instrument_query quantity_real float_of_reply
               instrument_query_binary in
  let q1 := Query ":HORI:SCAL?" in
  let q2 := Query (":CH" ++ py_str_int channel ++ ":SCAL?")%string in
  let q3 := Query (":CH" ++ py_str_int channel ++ ":OFFS?")%string in
  let w1 := Write (":WAV:BEG CH" ++ py_str_int channel)%string in
  let w2 := Write "WAV:RANG 0,1000" in
  (forall scale_voltage offset_divisons,
     channel_ok channel = true ->
     quantity_real (instrument_query (log ++ [q1])
                      (":CH" ++ py_str_int channel ++ ":SCAL?")%string) =
       Done scale_voltage ->
     float_of_reply (py_strip (instrument_query (log ++ [q1; q2])
                      (":CH" ++ py_str_int channel ++ ":OFFS?")%string)) =
       Done offset_divisons ->
     run channel log =
     (Done (decode (instrument_query_binary (log ++ [q1; q2; q3; w1; w2]) ":WAV:FETC?")
              scale_voltage offset_divisons scale_time),
      log ++ [q1; q2; q3; w1; w2; QueryBinary ":WAV:FETC?"; Write ":WAV:END"])) /\
  (channel_ok channel = false ->
   run channel log = (Raised (PyException "Invalid channel selected"), log ++ [q1])).
Proof.
  cbv zeta.
  assert (Hstart : timebase_getter instrument_query quantity_real log =
                   (Done scale_time, log ++ [Query ":HORI:SCAL?"])).
  { unfold timebase_getter, io_bind, query, io_outcome. rewrite Htime. reflexivity. }
  split.
  - intros sv off Hch Hsv Hoff.
    unfold capture, io_bind. rewrite Hstart.
    unfold get_scale, get_vertical_offset, io_bind, query, io_outcome.
    rewrite Hch. cbn [negb]. rewrite Hsv.
    rewrite <- !app_assoc. cbn [app]. rewrite Hoff.
    unfold send, instrument_write, query_binary_values, io_ret, decode.
    rewrite <- !app_assoc. cbn [app]. reflexivity.
  - intro Hch. unfold capture, io_bind. rewrite Hstart.
    unfold get_scale. rewrite Hch. reflexivity.
Qed.

Lemma capture_commands_witness :
  (fun _ : string => @Done Q 1%Q)
    (py_strip ((fun _ _ => "1s") (@nil event) ":HORI:SCAL?")) = Done 1%Q /\
  capture (fun _ _ => "1s") (fun _ => Done 1%Q) (fun _ => Done 0%Q)
    (fun _ _ => [6400]) 1 [] =
  (Done (decode [6400] 1 0 1),
   [Query ":HORI:SCAL?"; Query ":CH1:SCAL?"; Query ":CH1:OFFS?";
    Write ":WAV:BEG CH1"; Write "WAV:RANG 0,1000"; QueryBinary ":WAV:FETC?";
    Write ":WAV:END"]) /\
  capture (fun _ _ => "1s") (fun _ => Done 1%Q) (fun _ => Done 0%Q)
    (fun _ _ => [6400]) 7 [] =
  (Raised (PyException "Invalid channel selected"), [Query ":HORI:SCAL?"]).
Proof.
  split; [reflexivity|].
  split.
  - pose proof (capture_commands (fun _ _ => "1s") (fun _ => Done 1%Q)
                  (fun _ => Done 0%Q) (fun _ _ => [6400]) 1 [] 1 eq_refl) as H.
    cbv zeta in H. destruct H as (H & _).
    apply (H 1%Q 0%Q); reflexivity.
  - pose proof (capture_commands (fun _ _ => "1s") (fun _ => Done 1%Q)
                  (fun _ => Done 0%Q) (fun _ _ => [6400]) 7 [] 1 eq_refl) as H.
    cbv zeta in H. destruct H as (_ & H).
    apply H. reflexivity.
Defined.

